(** * thin: the provider pull pipeline (internal/runtime)

    A shallow embedding of the parts of [internal/runtime/oci.go],
    [internal/runtime/home.go] and the status handler that the
    specification talks about: the layer classifier with its legacy
    fallback, the content extractor over a small file-system model, the
    byte-counting reader, the home-directory lookup, the progress gauge
    and the two hand-rolled string helpers. *)

From Stdlib Require Import ZArith String Ascii List Bool Lia PrimFloat.
From Stdlib.Strings Require Import Byte.
From Stdlib Require Uint63 FloatOps SpecFloat FloatAxioms.
From stdpp Require Import base decidable option list strings gmap.

Local Open Scope Z_scope.

(** ** 1. Layer descriptors and the classifier (oci.go, PullProviderOCI) *)

(** [ocispec.Descriptor], restricted to the fields the pipeline reads. *)
Record Descriptor : Type := mkDescriptor {
  MediaType : string;
  Digest : string;
  Size : Z
}.

Definition emptyMediaType : string := "application/vnd.oci.empty.v1+json".
Definition providerMediaType : string := "application/vnd.sourceplane.provider.v1".
Definition assetsMediaType : string := "application/vnd.sourceplane.assets.v1".
Definition binaryPrefix : string := "application/vnd.sourceplane.bin.".

(** [fmt.Sprintf("application/vnd.sourceplane.bin.%s-%s", currentOS, currentArch)] *)
Definition binaryMediaType (currentOS currentArch : string) : string :=
  binaryPrefix +:+ currentOS +:+ "-" +:+ currentArch.

(** The three role pointers.  A pointer [&manifest.Layers[i]] is the index
    [i] into the (never mutated) slice of layers; [None] is [nil]. *)
Record roles : Type := mkRoles {
  providerLayer : option nat;
  assetsLayer : option nat;
  binaryLayer : option nat
}.

Definition noRoles : roles := mkRoles None None None.

(** One iteration of the [switch] inside the [for i, layer := range] loop. *)
Definition classify_step (bmt : string) (i : nat) (layer : Descriptor) (r : roles) : roles :=
  if decide (MediaType layer = emptyMediaType) then r
  else if decide (MediaType layer = providerMediaType) then
    mkRoles (Some i) (assetsLayer r) (binaryLayer r)
  else if decide (MediaType layer = assetsMediaType) then
    mkRoles (providerLayer r) (Some i) (binaryLayer r)
  else if decide (MediaType layer = bmt) then
    mkRoles (providerLayer r) (assetsLayer r) (Some i)
  else if String.prefix binaryPrefix (MediaType layer) then r
  else r.

(** The loop itself, started at index [i]. *)
Fixpoint classify_loop (bmt : string) (i : nat) (layers : list Descriptor) (r : roles) : roles :=
  match layers with
  | [] => r
  | layer :: rest => classify_loop bmt (S i) rest (classify_step bmt i layer r)
  end.

(** [if p != nil { layersToDownload = append(layersToDownload, p) }] *)
Definition appendIfSet (acc : list nat) (p : option nat) : list nat :=
  match p with
  | Some i => acc ++ [i]
  | None => acc
  end.

(** The fallback loop: every layer that is not the empty placeholder. *)
Fixpoint legacy_loop (i : nat) (layers : list Descriptor) : list nat :=
  match layers with
  | [] => []
  | layer :: rest =>
      if decide (MediaType layer = emptyMediaType) then legacy_loop (S i) rest
      else i :: legacy_loop (S i) rest
  end.

(** What the classification part of [PullProviderOCI] leaves behind: either
    an error return, or the list of layer pointers that is handed to the
    workers.  [legacyFallback] records which way the [binaryLayer == nil]
    test went (the code only prints a warning there). *)
Inductive classification : Type :=
| Fatal (msg : string)
| Selected (layersToDownload : list nat) (legacyFallback : bool).

Definition classify (currentOS currentArch : string) (layers : list Descriptor) : classification :=
  let bmt := binaryMediaType currentOS currentArch in
  let r := classify_loop bmt 0 layers noRoles in
  let layersToDownload :=
    appendIfSet (appendIfSet (appendIfSet [] (providerLayer r)) (assetsLayer r)) (binaryLayer r) in
  if decide (length layersToDownload = 0%nat) then
    Fatal "no compatible provider layers found in manifest"
  else if decide (providerLayer r = None ∧ assetsLayer r = None) then
    Fatal "provider manifest layer not found in manifest"
  else if decide (binaryLayer r = None) then
    Selected (legacy_loop 0 layers) true
  else
    Selected layersToDownload false.

(** [jobs <- *layer]: the descriptors the pointers stand for, in order. *)
Definition deref (layers : list Descriptor) (ptrs : list nat) : list Descriptor :=
  omap (λ i, layers !! i) ptrs.

(** The descriptors queued for download, when classification succeeds. *)
Definition downloadSet (currentOS currentArch : string) (layers : list Descriptor)
  : option (list Descriptor) :=
  match classify currentOS currentArch layers with
  | Fatal _ => None
  | Selected ptrs _ => Some (deref layers ptrs)
  end.

Definition hasType (mt : string) (d : Descriptor) : Prop := MediaType d = mt.

#[global] Instance hasType_dec mt d : Decision (hasType mt d).
Proof. unfold hasType. apply _. Defined.

(** Index of the last layer of media type [mt], counting from [i]. *)
Fixpoint lastOfType (mt : string) (i : nat) (layers : list Descriptor) : option nat :=
  match layers with
  | [] => None
  | layer :: rest =>
      match lastOfType mt (S i) rest with
      | Some j => Some j
      | None => if decide (MediaType layer = mt) then Some i else None
      end
  end.

(** [j] is the position of the last layer of media type [mt]. *)
Definition isLastOfType (mt : string) (layers : list Descriptor) (j : nat) : Prop :=
  (∃ d, layers !! j = Some d ∧ MediaType d = mt) ∧
  ∀ k d', (j < k)%nat → layers !! k = Some d' → MediaType d' ≠ mt.

(** The layer a role pointer stands for, as a list of at most one element. *)
Definition layerAt (layers : list Descriptor) (o : option nat) : list Descriptor :=
  match o with
  | Some j => match layers !! j with Some d => [d] | None => [] end
  | None => []
  end.

(** The first pointer that is set. *)
Definition orElse (a b : option nat) : option nat :=
  match a with
  | Some x => Some x
  | None => b
  end.

(** ** 2. Paths (path/filepath on a Unix host) *)

#[global] Instance byte_eq_dec : EqDecision byte := Byte.byte_eq_dec.

Definition slash : ascii := "/"%char.

(** [strings.Split(s, "/")]: the fields between slashes (never empty). *)
Fixpoint splitSlash (s : string) : list string :=
  match s with
  | EmptyString => [EmptyString]
  | String c rest =>
      if Ascii.eqb c slash then EmptyString :: splitSlash rest
      else match splitSlash rest with
           | [] => [String c EmptyString]
           | field :: fields => String c field :: fields
           end
  end.

(** [strings.Join(elems, "/")] *)
Fixpoint joinSlash (elems : list string) : string :=
  match elems with
  | [] => ""
  | [e] => e
  | e :: rest => e +:+ "/" +:+ joinSlash rest
  end.

Definition isRooted (p : string) : bool := String.prefix "/" p.

(** One path element processed by [filepath.Clean]: empty elements and
    [.] vanish, [..] removes the element before it (at the root of a
    rooted path it vanishes, at the start of a relative one it stays). *)
Definition clean_step (rooted : bool) (stack : list string) (elem : string) : list string :=
  if decide (elem = "") then stack
  else if decide (elem = ".") then stack
  else if decide (elem = "..") then
    match last stack with
    | Some top => if decide (top = "..") then stack ++ [".."] else removelast stack
    | None => if rooted then stack else [".."]
    end
  else stack ++ [elem].

Definition clean_elems (rooted : bool) (stack : list string) (p : string) : list string :=
  fold_left (clean_step rooted) (splitSlash p) stack.

(** [filepath.Clean] *)
Definition filepath_Clean (p : string) : string :=
  if decide (p = "") then "."
  else
    let elems := clean_elems (isRooted p) [] p in
    if isRooted p then "/" +:+ joinSlash elems
    else if decide (elems = []) then "." else joinSlash elems.

(** [filepath.Join]: the elements from the first non-empty one on are
    joined with slashes and cleaned; no non-empty element gives [""]. *)
Fixpoint filepath_Join (elem : list string) : string :=
  match elem with
  | [] => ""
  | e :: rest =>
      if decide (e = "") then filepath_Join rest
      else filepath_Clean (joinSlash (e :: rest))
  end.

Fixpoint hasSlash (s : string) : bool :=
  match s with
  | EmptyString => false
  | String c rest => Ascii.eqb c slash || hasSlash rest
  end.

(** [path[:i+1]] for [i] the index of the last slash ([""] without one). *)
Fixpoint upToLastSlash (s : string) : string :=
  match s with
  | EmptyString => EmptyString
  | String c rest =>
      if Ascii.eqb c slash || hasSlash rest then String c (upToLastSlash rest)
      else EmptyString
  end.

(** [filepath.Dir] *)
Definition filepath_Dir (p : string) : string := filepath_Clean (upToLastSlash p).

(** ** 3. The file system the extractor writes to *)

(** A node carries its Unix mode bits (permissions, setuid, setgid,
    sticky); a file also carries its bytes. *)
Inductive node : Type :=
| File (mode : Z) (content : list byte)
| Dir (mode : Z).

(** Nodes are keyed by their resolved absolute path, as the list of its
    elements from the root; the root itself always exists.  Symbolic
    links and access control are not part of the model. *)
Record filesystem : Type := mkFS {
  nodes : gmap (list string) node;
  cwd : list string;
  umask : Z
}.

Inductive result : Type :=
| Ok (fs : filesystem)
| Error (msg : string).

Definition bind (r : result) (k : filesystem → result) : result :=
  match r with
  | Ok fs => k fs
  | Error msg => Error msg
  end.

Notation "r >>= k" := (bind r k) (at level 50, left associativity).

(** How the kernel resolves a path string. *)
Definition resolve (fs : filesystem) (p : string) : list string :=
  clean_elems true (if isRooted p then [] else cwd fs) p.

Definition lookupNode (fs : filesystem) (key : list string) : option node :=
  match key with
  | [] => Some (Dir 0x1ed)
  | _ => nodes fs !! key
  end.

Definition setNode (fs : filesystem) (key : list string) (n : node) : filesystem :=
  mkFS (<[key := n]> (nodes fs)) (cwd fs) (umask fs).

(** [perm &^ umask], the mode a newly created node gets. *)
Definition masked (fs : filesystem) (perm : Z) : Z :=
  Z.land perm (Z.lxor 0xfff (Z.land (umask fs) 0xfff)).

(** [os.Stat(p)] returning a nil error. *)
Definition os_Stat_ok (fs : filesystem) (p : string) : bool :=
  bool_decide (is_Some (lookupNode fs (resolve fs p))).

(** [os.MkdirAll]: every missing directory along the path is created; an
    existing directory is kept as it is; a file in the way is an error. *)
Fixpoint mkdirAll_from (pre rest : list string) (perm : Z) (fs : filesystem) : result :=
  match rest with
  | [] => Ok fs
  | elem :: rest' =>
      let key := pre ++ [elem] in
      match lookupNode fs key with
      | Some (Dir _) => mkdirAll_from key rest' perm fs
      | Some (File _ _) => Error "mkdir: not a directory"
      | None => mkdirAll_from key rest' perm (setNode fs key (Dir (masked fs perm)))
      end
  end.

Definition os_MkdirAll (p : string) (perm : Z) (fs : filesystem) : result :=
  mkdirAll_from [] (resolve fs p) perm fs.

(** [os.OpenFile(name, O_CREATE|O_TRUNC|..., perm)] followed by writing
    [data] and closing: the parent must be a directory; an existing file
    is truncated and keeps its mode; a new one gets [perm &^ umask]. *)
Definition openTruncWrite (name : string) (data : list byte) (perm : Z) (fs : filesystem) : result :=
  let key := resolve fs name in
  match lookupNode fs (removelast key) with
  | Some (Dir _) =>
      match lookupNode fs key with
      | Some (Dir _) => Error "open: is a directory"
      | Some (File mode _) => Ok (setNode fs key (File mode data))
      | None => Ok (setNode fs key (File (masked fs perm) data))
      end
  | Some (File _ _) => Error "open: not a directory"
  | None => Error "open: no such file or directory"
  end.

(** [os.WriteFile] *)
Definition os_WriteFile (name : string) (data : list byte) (perm : Z) (fs : filesystem) : result :=
  openTruncWrite name data perm fs.

(** [os.Create(name)] and [io.Copy(file, tr)] of an entry body that is
    read without error, then [file.Close()]. *)
Definition os_Create_Copy (name : string) (body : list byte) (fs : filesystem) : result :=
  openTruncWrite name body 0x1b6 fs.

(** [os.FileMode(header.Mode)]: the conversion int64 -> uint32. *)
Definition FileMode_of_int64 (m : Z) : Z := Z.land m 0xffffffff.

(** [syscallMode] of package os: the nine permission bits, and the
    setuid, setgid and sticky bits from where [os.FileMode] keeps them. *)
Definition syscallMode (i : Z) : Z :=
  Z.lor (Z.land i 0x1ff)
    (Z.lor (if Z.testbit i 23 then 0x800 else 0)
       (Z.lor (if Z.testbit i 22 then 0x400 else 0)
          (if Z.testbit i 20 then 0x200 else 0))).

(** [os.Chmod]: not subject to the umask. *)
Definition os_Chmod (name : string) (mode : Z) (fs : filesystem) : result :=
  let key := resolve fs name in
  match key, lookupNode fs key with
  | [], _ => Ok fs
  | _, Some (File _ content) => Ok (setNode fs key (File (syscallMode mode) content))
  | _, Some (Dir _) => Ok (setNode fs key (Dir (syscallMode mode)))
  | _, None => Error "chmod: no such file or directory"
  end.

(** The nine permission bits of a node. *)
Definition permBits (n : node) : Z :=
  match n with
  | File mode _ => Z.land mode 0x1ff
  | Dir mode => Z.land mode 0x1ff
  end.

(** ** 4. Archives as the standard library hands them to the extractor *)

(** An [io.Reader]: the bytes it yields, then EOF or a read error. *)
Record reader : Type := mkReader {
  rdBytes : list byte;
  rdErr : option string
}.

(** [bytes.NewReader] *)
Definition bytes_NewReader (data : list byte) : reader := mkReader data None.

(** [io.ReadAll] *)
Definition io_ReadAll (r : reader) : string + list byte :=
  match rdErr r with
  | Some e => inl e
  | None => inr (rdBytes r)
  end.

(** [tar.Header], restricted to the fields read by the extractor. *)
Record tarHeader : Type := mkHeader {
  Name : string;
  Mode : Z;
  Typeflag : byte
}.

Definition TypeReg : byte := "0"%byte.
Definition TypeDir : byte := "5"%byte.

(** One successful [tr.Next()]: the header, and what [io.Copy(file, tr)]
    gets out of the entry (its bytes, then EOF or an error). *)
Record tarEntry : Type := mkEntry {
  header : tarHeader;
  body : list byte;
  bodyErr : option string
}.

(** All the results of calling [tr.Next()] until it stops: the entries,
    then [io.EOF] ([None]) or another error. *)
Record tarStream : Type := mkStream {
  entries : list tarEntry;
  finalErr : option string
}.

(** The two decoders of the Go standard library used by the extractor:
    [gzip.NewReader] (which fails on a bad header) and the sequence of
    [Next] results of [tar.NewReader]. *)
Record codecs : Type := mkCodecs {
  gzip_NewReader : list byte → string + reader;
  tar_NewReader : reader → tarStream
}.

(** ** 5. The content extractor (oci.go) *)

(** [bytes.HasPrefix] *)
Fixpoint bytes_HasPrefix (s pre : list byte) : bool :=
  match pre, s with
  | [], _ => true
  | _ :: _, [] => false
  | p :: pre', b :: s' => bool_decide (b = p) && bytes_HasPrefix s' pre'
  end.

Definition gzipMagic : list byte := [x1f; x8b].

(** The bytes of ["ustar"]. *)
Definition ustar : list byte := [x75; x73; x74; x61; x72].

(** [isTar] *)
Definition isTar (data : list byte) : bool :=
  if decide (length data < 512)%nat then false
  else bool_decide (take 5 (drop 257 data) = ustar).

(** The body of the [for] loop of [extractTarWithReader], entry by entry. *)
Fixpoint extractEntries (es : list tarEntry) (fin : option string) (targetDir : string)
    (fs : filesystem) : result :=
  match es with
  | [] =>
      match fin with
      | None => Ok fs
      | Some e => Error ("failed to read tar header: " +:+ e)
      end
  | e :: rest =>
      let targetPath := filepath_Join [targetDir; Name (header e)] in
      if decide (Typeflag (header e) = TypeDir) then
        os_MkdirAll targetPath 0x1ed fs >>= extractEntries rest fin targetDir
      else if decide (Typeflag (header e) = TypeReg) then
        os_MkdirAll (filepath_Dir targetPath) 0x1ed fs >>= (λ fs1,
        os_Create_Copy targetPath (body e) fs1 >>= (λ fs2,
        match bodyErr e with
        | Some err => Error err
        | None =>
            os_Chmod targetPath (FileMode_of_int64 (Mode (header e))) fs2
              >>= extractEntries rest fin targetDir
        end))
      else extractEntries rest fin targetDir fs
  end.

(** [extractTarWithReader] *)
Definition extractTarWithReader (c : codecs) (r : reader) (targetDir : string)
    (fs : filesystem) : result :=
  let tr := tar_NewReader c r in
  extractEntries (entries tr) (finalErr tr) targetDir fs.

(** The node a tar entry is written to. *)
Definition targetKey (fs : filesystem) (targetDir : string) (e : tarEntry) : list string :=
  resolve fs (filepath_Join [targetDir; Name (header e)]).

(** [extractTarGz] *)
Definition extractTarGz (c : codecs) (r : reader) (targetDir : string)
    (fs : filesystem) : result :=
  match io_ReadAll r with
  | inl e => Error ("failed to read gzip: " +:+ e)
  | inr content =>
      match gzip_NewReader c content with
      | inl e => Error ("failed to create gzip reader: " +:+ e)
      | inr gz => extractTarWithReader c gz targetDir fs
      end
  end.

(** [extractTar] *)
Definition extractTar (c : codecs) (r : reader) (targetDir : string)
    (fs : filesystem) : result :=
  match io_ReadAll r with
  | inl e => Error ("failed to read tar: " +:+ e)
  | inr content => extractTarWithReader c (bytes_NewReader content) targetDir fs
  end.

(** [layerData[0] >= 32 && layerData[0] < 127] *)
Definition printable (b : byte) : bool :=
  (32 <=? Z.of_N (Byte.to_N b)) && (Z.of_N (Byte.to_N b) <? 127).

(** [extractLayerContent] *)
Definition extractLayerContent (c : codecs) (layerData : list byte) (targetDir : string)
    (fs : filesystem) : result :=
  if bytes_HasPrefix layerData gzipMagic then
    extractTarGz c (bytes_NewReader layerData) targetDir fs
  else if isTar layerData then
    extractTar c (bytes_NewReader layerData) targetDir fs
  else if 4000000 <? Z.of_nat (length layerData) then
    let binPath := filepath_Join [targetDir; "bin"; "entrypoint"] in
    os_MkdirAll (filepath_Dir binPath) 0x1ed fs >>= os_WriteFile binPath layerData 0x1ed
  else
    match layerData with
    | b :: _ =>
        if printable b then
          let manifestPath := filepath_Join [targetDir; "thin.provider.yaml"] in
          os_WriteFile manifestPath layerData 0x1a4 fs
        else Ok fs
    | [] => Ok fs
    end.

(** ** 6. The byte-counting reader and the download worker (oci.go) *)

Definition wrap64 (z : Z) : Z := (z + 2 ^ 63) mod 2 ^ 64 - 2 ^ 63.

(** [time.Duration] is an int64 and [Time.Sub] saturates. *)
Definition time_Sub (t u : Z) : Z := Z.max (- 2 ^ 63) (Z.min (2 ^ 63 - 1) (t - u)).

(** The calls the pipeline makes on a [StatusHandler]. *)
Inductive handlerCall : Type :=
| OnNodeDownloading (desc : Descriptor)
| OnNodeDownloaded (desc : Descriptor)
| OnNodeProcessing (desc : Descriptor)
| OnNodeRestored (desc : Descriptor)
| OnNodeSkipped (desc : Descriptor)
| UpdateProgress (digest : string) (bytesRead : Z).

(** [progressTracker] without its reader and handler; times are
    nanoseconds on the monotonic clock. *)
Record progressTracker : Type := mkTracker {
  digest : string;
  bytesRead : Z;
  lastUpdate : Z;
  updateFreq : Z
}.

(** [progressTracker.Read] for an inner read that returned [n] bytes at
    time [now]: the tracker afterwards and the handler calls made. *)
Definition progressTracker_Read (pt : progressTracker) (n now : Z)
  : progressTracker * list handlerCall :=
  if 0 <? n then
    let total := wrap64 (bytesRead pt + n) in
    if updateFreq pt <=? time_Sub now (lastUpdate pt) then
      (mkTracker (digest pt) total now (updateFreq pt), [UpdateProgress (digest pt) total])
    else (mkTracker (digest pt) total (lastUpdate pt) (updateFreq pt), [])
  else (pt, []).

(** A whole transfer through the tracker: the inner reads as pairs of
    byte count and time. *)
Fixpoint progressTracker_run (pt : progressTracker) (reads : list (Z * Z)) : list handlerCall :=
  match reads with
  | [] => []
  | (n, now) :: rest =>
      let '(pt', calls) := progressTracker_Read pt n now in
      calls ++ progressTracker_run pt' rest
  end.

(** The bytes a sequence of inner reads delivers. *)
Fixpoint bytesDelivered (reads : list (Z * Z)) : Z :=
  match reads with
  | [] => 0
  | (n, _) :: rest => Z.max 0 n + bytesDelivered rest
  end.

(** [trackedFetchAll]: [fetchAll] stands for [content.FetchAll(ctx, repo, _)].
    The result is paired with the handler calls made during the fetch; the
    [handler] argument is not used by the body. *)
Definition trackedFetchAll (fetchAll : Descriptor → string + list byte) (layer : Descriptor)
  : (string + list byte) * list handlerCall :=
  match fetchAll layer with
  | inl err => (inl err, [])
  | inr data => (inr data, [])
  end.

(** What a worker does with one job taken from the queue: the [layerJob]
    it sends back and the handler calls it makes. *)
Definition worker_job (fetchAll : Descriptor → string + list byte) (layer : Descriptor)
  : (string + list byte) * list handlerCall :=
  let '(res, calls) := trackedFetchAll fetchAll layer in
  match res with
  | inl err => (inl err, OnNodeDownloading layer :: calls)
  | inr layerData => (inr layerData, OnNodeDownloading layer :: calls ++ [OnNodeDownloaded layer])
  end.

Definition isUpdateProgress (c : handlerCall) : bool :=
  match c with
  | UpdateProgress _ _ => true
  | _ => false
  end.

(** The byte counts reported for [dg], in the order of the calls. *)
Fixpoint reportedBytes (dg : string) (calls : list handlerCall) : list Z :=
  match calls with
  | [] => []
  | UpdateProgress d n :: rest =>
      if decide (d = dg) then n :: reportedBytes dg rest else reportedBytes dg rest
  | _ :: rest => reportedBytes dg rest
  end.

Fixpoint nondecreasing (l : list Z) : Prop :=
  match l with
  | [] => True
  | x :: rest =>
      match rest with
      | [] => True
      | y :: _ => x <= y ∧ nondecreasing rest
      end
  end.

(** ** 7. The providers home (home.go) *)

(** The process environment: [os.Getenv], and what [os.UserHomeDir]
    returns ([""] together with its error). *)
Record environ : Type := mkEnviron {
  os_Getenv : string → string;
  os_UserHomeDir : string
}.

(** [os.Getwd] *)
Definition os_Getwd (fs : filesystem) : string := "/" +:+ joinSlash (cwd fs).

(** [ThinHome] *)
Definition ThinHome (env : environ) (fs : filesystem) : string :=
  let v := os_Getenv env "THIN_HOME" in
  if negb (bool_decide (v = "")) then v
  else if os_Stat_ok fs ".thin" then filepath_Join [os_Getwd fs; ".thin"]
  else filepath_Join [os_UserHomeDir env; ".thin"].

(** ** 8. The interactive progress line (TTYStatusHandler.render) *)

(** [float64(z)] for an int64 [z]: rounding to nearest, ties to even. *)
Definition float64_of_int64 (z : Z) : float :=
  if z =? - 2 ^ 63 then PrimFloat.opp (PrimFloat.mul (of_uint63 (Uint63.of_Z (2 ^ 62))) 2%float)
  else if z <? 0 then PrimFloat.opp (of_uint63 (Uint63.of_Z (- z)))
  else of_uint63 (Uint63.of_Z z).

(** [int(f)] for a float64 [f]: truncation towards zero; [None] where Go
    leaves the result to the implementation (NaN, infinities, values
    outside int64). *)
Definition int_of_float64 (f : float) : option Z :=
  match FloatOps.Prim2SF f with
  | SpecFloat.S754_zero _ => Some 0
  | SpecFloat.S754_finite s m e =>
      let a := Z.shiftl (Z.pos m) e in
      let v := if s then - a else a in
      if (- 2 ^ 63 <=? v) && (v <? 2 ^ 63) then Some v else None
  | _ => None
  end.

(** [NodeProgress], restricted to the fields the gauge reads. *)
Record NodeProgress : Type := mkNodeProgress {
  npDescriptor : Descriptor;
  Status : string;
  BytesRead : Z;
  StartTime : Z
}.

Record TTYStatusHandler : Type := mkTTY {
  progress : gmap string NodeProgress;
  currentNode : string;
  spinnerIdx : Z
}.

(** The numbers one call of [render] puts on the status line. *)
Record gauge : Type := mkGauge {
  fraction : float;
  filledLength : option Z;
  percent : float
}.

Definition barLength : Z := 20.

(** The completion fraction computed by [render]. *)
Definition render_progress (p : NodeProgress) : float :=
  let progress := PrimFloat.div (float64_of_int64 (BytesRead p))
                    (float64_of_int64 (Size (npDescriptor p))) in
  if PrimFloat.ltb 1%float progress then 1%float else progress.

(** [render]: [None] when it returns without drawing. *)
Definition render (h : TTYStatusHandler) : option gauge :=
  if decide (currentNode h = "") then None
  else
    match progress h !! currentNode h with
    | None => None
    | Some p =>
        if decide (Status p = "Downloading") then
          let progress := render_progress p in
          Some (mkGauge progress
                  (int_of_float64 (PrimFloat.mul progress (float64_of_int64 barLength)))
                  (PrimFloat.mul progress 100%float))
        else None
    end.

(** [UpdateProgress] of the handler. *)
Definition TTY_UpdateProgress (h : TTYStatusHandler) (dg : string) (n : Z) : TTYStatusHandler :=
  match progress h !! dg with
  | Some p =>
      mkTTY (<[dg := mkNodeProgress (npDescriptor p) (Status p) n (StartTime p)]> (progress h))
        (currentNode h) (spinnerIdx h)
  | None => h
  end.

(** The counts [filledLength] and [emptyLength] that [render] passes to
    [strings.Repeat], which panics on a negative count; [None] where the
    conversion [int(f)] is left to the implementation. *)
Definition repeatCounts (g : gauge) : option (Z * Z) :=
  match filledLength g with
  | Some n => Some (n, barLength - n)
  | None => None
  end.

(** ** 9. The string helpers (oci.go) *)

(** [s[i:i+len(substr)] == substr], for a slice that is in range. *)
Definition sliceEq (s substr : string) (i : nat) : bool :=
  String.eqb (substring i (String.length substr) s) substr.

(** The number of iterations of [for i := 0; i < len(s)-len(substr)+1; i++]
    (the bound is a signed int and may be negative). *)
Definition loopCount (s substr : string) : nat :=
  Z.to_nat (Z.of_nat (String.length s) - Z.of_nat (String.length substr) + 1).

Fixpoint contains_loop (s substr : string) (i n : nat) : bool :=
  match n with
  | O => false
  | S n' => if sliceEq s substr i then true else contains_loop s substr (S i) n'
  end.

(** [contains] *)
Definition contains (s substr : string) : bool :=
  contains_loop s substr 0 (loopCount s substr).

Fixpoint lastIndexOf_loop (s substr : string) (i n : nat) (last : Z) : Z :=
  match n with
  | O => last
  | S n' =>
      lastIndexOf_loop s substr (S i) n' (if sliceEq s substr i then Z.of_nat i else last)
  end.

(** [lastIndexOf] *)
Definition lastIndexOf (s substr : string) : Z :=
  lastIndexOf_loop s substr 0 (loopCount s substr) (-1).

(** What the standard library documents for [strings.Contains] and
    [strings.LastIndex]: [substr] occurs in [s] at byte offset [i]. *)
Definition occursAt (s substr : string) (i : nat) : Prop :=
  ∃ pre post : string, s = pre +:+ substr +:+ post ∧ String.length pre = i.

(** [strings.Contains(s, substr)] reports whether [substr] is within [s]. *)
Definition strings_Contains (s substr : string) : Prop := ∃ i, occursAt s substr i.

(** [strings.LastIndex(s, substr)] is the index of the last instance of
    [substr] in [s], or -1 if [substr] is not present in [s]. *)
Definition strings_LastIndex (s substr : string) (r : Z) : Prop :=
  (r = -1 ∧ ¬ strings_Contains s substr) ∨
  (∃ i : nat, r = Z.of_nat i ∧ occursAt s substr i ∧ ∀ j, occursAt s substr j → (j <= i)%nat).

(** The reference normalisation at the head of [PullProviderOCI]. *)
Definition normalizeRef (imageRef : string) : string :=
  let ref := if negb (contains imageRef "/") then "docker.io/" +:+ imageRef else imageRef in
  if negb (contains ref ":") then ref +:+ ":latest" else ref.

(** ** 10. The argument splitter (cmd/root.go) *)

(** The runes that [for _, ch := range argString] yields; an argument is
    the sequence of runes written to the builder. *)
Definition rune : Type := Z.

Definition doubleQuote : rune := 34.
Definition singleQuote : rune := 39.
Definition spaceRune : rune := 32.

(** The local variables of [parseArgs]. *)
Record argState : Type := mkArgState {
  args : list (list rune);
  current : list rune;
  inQuote : bool;
  quoteChar : rune
}.

(** One turn of the loop of [parseArgs]. *)
Definition parseArgs_step (st : argState) (ch : rune) : argState :=
  if ((ch =? doubleQuote) || (ch =? singleQuote)) && negb (inQuote st) then
    mkArgState (args st) (current st) true ch
  else if (ch =? quoteChar st) && inQuote st then
    mkArgState (args st) (current st) false (quoteChar st)
  else if (ch =? spaceRune) && negb (inQuote st) then
    match current st with
    | [] => st
    | _ :: _ => mkArgState (args st ++ [current st]) [] (inQuote st) (quoteChar st)
    end
  else mkArgState (args st) (current st ++ [ch]) (inQuote st) (quoteChar st).

(** [parseArgs] *)
Definition parseArgs (argString : list rune) : list (list rune) :=
  let st := fold_left parseArgs_step argString (mkArgState [] [] false 0) in
  match current st with
  | [] => args st
  | _ :: _ => args st ++ [current st]
  end.



(** ** 11. Provider references (package runtime) *)

(** [strings.Split(s, sep)] for a separator of one byte. *)
Fixpoint splitOn (sep : ascii) (s : string) : list string :=
  match s with
  | EmptyString => [EmptyString]
  | String c rest =>
      if Ascii.eqb c sep then EmptyString :: splitOn sep rest
      else match splitOn sep rest with
           | [] => [String c EmptyString]
           | field :: fields => String c field :: fields
           end
  end.

(** The byte [c] occurs in [s]. *)
Fixpoint hasChar (c : ascii) (s : string) : bool :=
  match s with
  | EmptyString => false
  | String c' rest => Ascii.eqb c' c || hasChar c rest
  end.

Module ProviderRef.
Record t : Type := mk {
  Namespace : string;
  Name : string;
  Version : string
}.
End ProviderRef.

(** [ParseProviderRef] *)
Definition ParseProviderRef (ref : string) : string + ProviderRef.t :=
  match splitOn "@" ref with
  | [nsNameStr; version] =>
      match splitOn "/" nsNameStr with
      | [ns; name] => inr (ProviderRef.mk ns name version)
      | _ => inl "invalid provider reference"
      end
  | _ => inl "invalid provider reference"
  end.

(** ** 12. The tag of a reference (oci.go, PullProviderOCI) *)

(** [s[n:]], for [n] within the string. *)
Fixpoint dropString (n : nat) (s : string) : string :=
  match n, s with
  | O, _ => s
  | S n', String _ rest => dropString n' rest
  | S _, EmptyString => EmptyString
  end.

(** The tag handed to [repo.Resolve]: what follows the last colon of the
    reference, ["latest"] when it has none. *)
Definition resolveTag (ref : string) : string :=
  let idx := lastIndexOf ref ":" in
  if 0 <=? idx then dropString (Z.to_nat (idx + 1)) ref else "latest".

(** ** 13. The life cycle of the interactive handler *)

(** [desc.Digest.String()[:16]]; [None] stands for the run-time panic of
    the slice expression on a shorter digest. *)
Definition digestStr (desc : Descriptor) : option string :=
  if decide (String.length (Digest desc) < 16)%nat then None
  else Some (substring 0 16 (Digest desc)).

(** [if p, ok := h.progress[dg]; ok { p.Status = status }] *)
Definition setStatus (h : TTYStatusHandler) (dg status : string) : TTYStatusHandler :=
  match progress h !! dg with
  | Some p =>
      mkTTY (<[dg := mkNodeProgress (npDescriptor p) status (BytesRead p) (StartTime p)]>
               (progress h))
        (currentNode h) (spinnerIdx h)
  | None => h
  end.

(** [TTYStatusHandler.OnNodeDownloading], at time [now]. *)
Definition TTY_OnNodeDownloading (h : TTYStatusHandler) (desc : Descriptor) (now : Z)
  : option TTYStatusHandler :=
  match digestStr desc with
  | Some dg =>
      Some (mkTTY (<[dg := mkNodeProgress desc "Downloading" 0 now]> (progress h))
              dg (spinnerIdx h))
  | None => None
  end.

(** [TTYStatusHandler.OnNodeDownloaded] *)
Definition TTY_OnNodeDownloaded (h : TTYStatusHandler) (desc : Descriptor)
  : option TTYStatusHandler :=
  match digestStr desc with
  | Some dg => Some (setStatus h dg "Downloaded")
  | None => None
  end.

(** [TTYStatusHandler.OnNodeProcessing] *)
Definition TTY_OnNodeProcessing (h : TTYStatusHandler) (desc : Descriptor)
  : option TTYStatusHandler :=
  match digestStr desc with
  | Some dg => Some (setStatus h dg "Processing")
  | None => None
  end.

(** [TTYStatusHandler.OnNodeRestored]: the current node is reset whatever
    the descriptor. *)
Definition TTY_OnNodeRestored (h : TTYStatusHandler) (desc : Descriptor)
  : option TTYStatusHandler :=
  match digestStr desc with
  | Some dg =>
      let h1 := setStatus h dg "Restored" in
      Some (mkTTY (progress h1) "" (spinnerIdx h1))
  | None => None
  end.

(** [TTYStatusHandler.OnNodeSkipped] *)
Definition TTY_OnNodeSkipped (h : TTYStatusHandler) (desc : Descriptor)
  : option TTYStatusHandler :=
  match digestStr desc with
  | Some dg => Some (setStatus h dg "Skipped")
  | None => None
  end.

(** One call on the handler, made at time [now]. *)
Definition TTY_handle (h : TTYStatusHandler) (call : handlerCall) (now : Z)
  : option TTYStatusHandler :=
  match call with
  | OnNodeDownloading desc => TTY_OnNodeDownloading h desc now
  | OnNodeDownloaded desc => TTY_OnNodeDownloaded h desc
  | OnNodeProcessing desc => TTY_OnNodeProcessing h desc
  | OnNodeRestored desc => TTY_OnNodeRestored h desc
  | OnNodeSkipped desc => TTY_OnNodeSkipped h desc
  | UpdateProgress dg n => Some (TTY_UpdateProgress h dg n)
  end.

(** A sequence of calls with their times. *)
Fixpoint TTY_run (h : TTYStatusHandler) (calls : list (handlerCall * Z))
  : option TTYStatusHandler :=
  match calls with
  | [] => Some h
  | (call, now) :: rest =>
      match TTY_handle h call now with
      | Some h' => TTY_run h' rest
      | None => None
      end
  end.

(** The handler as [NewTTYStatusHandler] makes it. *)
Definition NewTTYStatusHandler : TTYStatusHandler := mkTTY ∅ "" 0.

Definition isOnNodeDownloading (call : handlerCall) : bool :=
  match call with
  | OnNodeDownloading _ => true
  | _ => false
  end.

(** ** 14. The binary of the platform (oci.go) *)

(** The loops [for _, name := range []string{...}] of
    [GetPlatformBinaryPath]: the first name under [dir] that exists. *)
Fixpoint firstExisting (fs : filesystem) (dir names : list string) : option string :=
  match names with
  | [] => None
  | name :: rest =>
      let altPath := filepath_Join (dir ++ [name]) in
      if os_Stat_ok fs altPath then Some altPath else firstExisting fs dir rest
  end.

(** [GetPlatformBinaryPath], for [runtime.GOOS] and [runtime.GOARCH]. *)
Definition GetPlatformBinaryPath (goos arch providerDir : string) (fs : filesystem)
  : string + string :=
  let flatBinaryPath := filepath_Join [providerDir; "bin"; "entrypoint"] in
  if os_Stat_ok fs flatBinaryPath then inr flatBinaryPath
  else
    match firstExisting fs [providerDir; "bin"] ["thin"; "provider"] with
    | Some altPath => inr altPath
    | None =>
        let nestedBinaryPath := filepath_Join [providerDir; "bin"; goos; arch; "entrypoint"] in
        if os_Stat_ok fs nestedBinaryPath then inr nestedBinaryPath
        else
          match firstExisting fs [providerDir; "bin"; goos; arch] ["thin"; "provider"] with
          | Some altPath => inr altPath
          | None =>
              inl ("binary not found for platform " +:+ goos +:+ "/" +:+ arch +:+
                   " (checked bin/entrypoint and bin/" +:+ goos +:+ "/" +:+ arch +:+
                   "/entrypoint)")
          end
    end.

(** The end of [PullProviderOCI]: a binary that is found is made
    executable; one that is not found is only warned about. *)
Definition finalizeBinary (goos arch providerBaseDir : string) (fs : filesystem) : result :=
  match GetPlatformBinaryPath goos arch providerBaseDir fs with
  | inl _ => Ok fs
  | inr binPath =>
      match os_Chmod binPath 0x1ed fs with
      | Ok fs' => Ok fs'
      | Error e => Error ("failed to make binary executable: " +:+ e)
      end
  end.

(** The candidates of [GetPlatformBinaryPath], in the order it tries them. *)
Definition binaryCandidates (goos arch providerDir : string) : list string :=
  [ filepath_Join [providerDir; "bin"; "entrypoint"];
    filepath_Join [providerDir; "bin"; "thin"];
    filepath_Join [providerDir; "bin"; "provider"];
    filepath_Join [providerDir; "bin"; goos; arch; "entrypoint"];
    filepath_Join [providerDir; "bin"; goos; arch; "thin"];
    filepath_Join [providerDir; "bin"; goos; arch; "provider"] ].

(** ** 15. The provider manifest (manifest.go) *)

(** [ProviderManifest], restricted to the fields that [Validate] and
    the callers read; [Capabilities] keeps the keys of the map. *)
Record ProviderManifest : Type := mkManifest {
  APIVersion : string;
  Kind : string;
  MetadataName : string;
  MetadataVersion : string;
  DistributionType : string;
  DistributionRef : string;
  EntrypointExecutable : string;
  EntrypointDefaultArgs : string;
  Capabilities : gset string
}.

(** [ProviderManifest.Validate]: [None] is the nil error. *)
Definition Validate (m : ProviderManifest) : option string :=
  if decide (APIVersion m = "") then Some "manifest missing required field: apiVersion"
  else if decide (APIVersion m ≠ "thin.io/v1") then
    Some ("unsupported apiVersion: " +:+ APIVersion m +:+ " (expected: thin.io/v1)")
  else if decide (Kind m ≠ "Provider") then
    Some ("manifest kind must be 'Provider', got: " +:+ Kind m)
  else if decide (MetadataName m = "") then
    Some "manifest missing required field: metadata.name"
  else if decide (MetadataVersion m = "") then
    Some "manifest missing required field: metadata.version"
  else if decide (DistributionType m = "") then
    Some "manifest missing required field: distribution.type"
  else if decide (DistributionType m ≠ "oci") then
    Some ("unsupported distribution type: " +:+ DistributionType m +:+ " (expected: oci)")
  else if decide (DistributionRef m = "") then
    Some "manifest missing required field: distribution.ref"
  else if decide (EntrypointExecutable m = "") then
    Some "manifest missing required field: entrypoint.executable"
  else if decide (size (Capabilities m) = 0%nat) then
    Some "manifest must define at least one capability"
  else None.

(** [os.ReadFile]: the bytes of a file; anything else is an error. *)
Definition os_ReadFile (fs : filesystem) (name : string) : option (list byte) :=
  match lookupNode fs (resolve fs name) with
  | Some (File _ content) => Some content
  | _ => None
  end.

(** The three outcomes of [ReadProviderManifest]: [(nil, nil)],
    [(nil, err)] and [(&manifest, nil)]. *)
Inductive manifestResult : Type :=
| NoManifest
| ManifestError (err : string)
| Manifest (m : ProviderManifest).

(** [ReadProviderManifest]; [unmarshal] stands for [yaml.Unmarshal] into
    a [ProviderManifest]. *)
Definition ReadProviderManifest (unmarshal : list byte → string + ProviderManifest)
    (providerDir : string) (fs : filesystem) : manifestResult :=
  let manifestPath := filepath_Join [providerDir; "thin.provider.yaml"] in
  match os_ReadFile fs manifestPath with
  | None => NoManifest
  | Some data =>
      match unmarshal data with
      | inl e => ManifestError ("failed to parse manifest: " +:+ e)
      | inr m =>
          match Validate m with
          | Some e => ManifestError e
          | None => Manifest m
          end
      end
  end.

(** The entrypoint name [executeProviderCommand] (cmd/root.go) takes from
    the manifest it has read. *)
Definition entrypointName (m : ProviderManifest) : string :=
  if decide (EntrypointExecutable m = "") then "entrypoint" else EntrypointExecutable m.

(** [GetProviderMetadata]: name and version, or the error. *)
Definition GetProviderMetadata (unmarshal : list byte → string + ProviderManifest)
    (providerDir : string) (fs : filesystem) : string + string * string :=
  match ReadProviderManifest unmarshal providerDir fs with
  | ManifestError e => inl e
  | NoManifest => inr ("", "")
  | Manifest m => inr (MetadataName m, MetadataVersion m)
  end.

(** ** 16. Auxiliary notions for the extractor's properties *)

(** One turn of the loop of [extractTarWithReader] on its own. *)
Definition entryStep (e : tarEntry) (targetDir : string) (fs : filesystem) : result :=
  let targetPath := filepath_Join [targetDir; Name (header e)] in
  if decide (Typeflag (header e) = TypeDir) then os_MkdirAll targetPath 0x1ed fs
  else if decide (Typeflag (header e) = TypeReg) then
    os_MkdirAll (filepath_Dir targetPath) 0x1ed fs >>= (λ fs1,
    os_Create_Copy targetPath (body e) fs1 >>= (λ fs2,
    match bodyErr e with
    | Some err => Error err
    | None => os_Chmod targetPath (FileMode_of_int64 (Mode (header e))) fs2
    end))
  else Ok fs.

Definition isFileNode (o : option node) : Prop := ∃ m content, o = Some (File m content).

(** Every directory on the way from [pre] down [rest] exists. *)
Fixpoint allDirs (fs : filesystem) (pre rest : list string) : Prop :=
  match rest with
  | [] => True
  | elem :: rest' =>
      (∃ m, lookupNode fs (pre ++ [elem]) = Some (Dir m)) ∧ allDirs fs (pre ++ [elem]) rest'
  end.



(** A path element that [filepath.Clean] keeps as it is. *)
Definition plainElem (e : string) : Prop :=
  e ≠ "" ∧ e ≠ "." ∧ e ≠ ".." ∧ hasChar "/" e = false.

(** What the element stack of [filepath.Clean] holds: no empty element,
    no dot, no slash. *)
Definition stackElem (e : string) : Prop := e ≠ "" ∧ e ≠ "." ∧ hasChar slash e = false.

(** The elements of a slash-separated name that name something. *)
Definition nameElems (name : string) : list string :=
  filter (λ x, x ≠ "" ∧ x ≠ ".") (splitSlash name).

(** * Properties *)

(** ** Classifier *)

Lemma binaryMediaType_not_fixed currentOS currentArch :
  binaryMediaType currentOS currentArch ≠ emptyMediaType ∧
  binaryMediaType currentOS currentArch ≠ providerMediaType ∧
  binaryMediaType currentOS currentArch ≠ assetsMediaType.
Proof.
  unfold binaryMediaType, binaryPrefix.
  repeat split; intros H;
    apply (f_equal (λ s, String.get 28 s)) in H; vm_compute in H; discriminate.
Qed.

Lemma fixed_types_distinct :
  emptyMediaType ≠ providerMediaType ∧ emptyMediaType ≠ assetsMediaType ∧
  providerMediaType ≠ assetsMediaType.
Proof. repeat split; discriminate. Qed.

Lemma classify_loop_roles bmt i layers r :
  bmt ≠ emptyMediaType → bmt ≠ providerMediaType → bmt ≠ assetsMediaType →
  classify_loop bmt i layers r =
    mkRoles (orElse (lastOfType providerMediaType i layers) (providerLayer r))
            (orElse (lastOfType assetsMediaType i layers) (assetsLayer r))
            (orElse (lastOfType bmt i layers) (binaryLayer r)).
Proof.
  intros Hbe Hbp Hba.
  destruct fixed_types_distinct as (Hep & Hea & Hpa).
  revert i r. induction layers as [|layer rest IH]; intros i r.
  - by destruct r.
  - cbn [classify_loop lastOfType]. rewrite IH.
    destruct (lastOfType providerMediaType (S i) rest),
             (lastOfType assetsMediaType (S i) rest),
             (lastOfType bmt (S i) rest);
      unfold classify_step; cbn [orElse];
      repeat (case_decide; simplify_eq; cbn [providerLayer assetsLayer binaryLayer]);
      try congruence; try (by destruct r);
      destruct (String.prefix _ _); by destruct r.
Qed.

Lemma filter_hasType_nil mt (layers : list Descriptor) :
  (∀ d, d ∈ layers → MediaType d ≠ mt) → filter (hasType mt) layers = [].
Proof.
  induction layers as [|layer rest IH]; intros H; [done|].
  rewrite filter_cons_False.
  - apply IH. intros d Hd. apply H. by right.
  - apply H. by left.
Qed.

Lemma lastOfType_None mt i layers :
  lastOfType mt i layers = None ↔ ∀ d, d ∈ layers → MediaType d ≠ mt.
Proof.
  revert i. induction layers as [|layer rest IH]; intros i; cbn [lastOfType].
  - split; [intros _ d Hd; by apply elem_of_nil in Hd | done].
  - destruct (lastOfType mt (S i) rest) eqn:E.
    + split; [done|]. intros H.
      assert (lastOfType mt (S i) rest = None) as E'
        by (apply IH; intros d Hd; apply H; by right).
      congruence.
    + case_decide as Hl.
      * split; [done|]. intros H. exfalso. apply (H layer); [by left | done].
      * split; [|done]. intros _ d Hd. apply elem_of_cons in Hd as [->|Hd]; [done|].
        eapply IH; eauto.
Qed.

Lemma lastOfType_Some mt i layers n :
  lastOfType mt i layers = Some n →
  ∃ j, n = (i + j)%nat ∧ isLastOfType mt layers j ∧
       last (filter (hasType mt) layers) = layers !! j.
Proof.
  revert i n. induction layers as [|layer rest IH]; intros i n; cbn [lastOfType]; [done|].
  destruct (lastOfType mt (S i) rest) eqn:E.
  - intros [= <-]. destruct (IH _ _ E) as (j & -> & [(d & Hj & Hd) Hlast] & Hf).
    exists (S j). split; [lia|]. split; [split|].
    + by exists d.
    + intros [|k] d' Hk; [lia|]. cbn. apply Hlast. lia.
    + change ((layer :: rest) !! S j) with (rest !! j). rewrite <- Hf.
      rewrite filter_cons. case_decide; [|done].
      rewrite last_cons. by rewrite Hf, Hj.
  - case_decide as Hl; [|done]. intros [= <-]. exists 0%nat.
    rewrite lastOfType_None in E.
    split; [lia|]. split; [split|].
    + by exists layer.
    + intros [|k] d' Hk Hd'; [lia|]. cbn in Hd'.
      apply E. eapply list_elem_of_lookup_2; eauto.
    + rewrite filter_cons_True by done.
      by rewrite (filter_hasType_nil _ _ E).
Qed.

Lemma lastOfType_found mt layers :
  filter (hasType mt) layers ≠ [] →
  ∃ j, lastOfType mt 0 layers = Some j ∧ isLastOfType mt layers j ∧
       last (filter (hasType mt) layers) = layers !! j.
Proof.
  intros Hne. destruct (lastOfType mt 0 layers) as [n|] eqn:E.
  - destruct (lastOfType_Some _ _ _ _ E) as (j & -> & Hj & Hl). by exists j.
  - rewrite lastOfType_None in E. by apply filter_hasType_nil in E.
Qed.

Lemma classify_loop_from_start currentOS currentArch layers :
  classify_loop (binaryMediaType currentOS currentArch) 0 layers noRoles =
    mkRoles (lastOfType providerMediaType 0 layers)
            (lastOfType assetsMediaType 0 layers)
            (lastOfType (binaryMediaType currentOS currentArch) 0 layers).
Proof.
  destruct (binaryMediaType_not_fixed currentOS currentArch) as (He & Hp & Ha).
  rewrite classify_loop_roles by done.
  by destruct (lastOfType providerMediaType 0 layers),
              (lastOfType assetsMediaType 0 layers),
              (lastOfType (binaryMediaType currentOS currentArch) 0 layers).
Qed.

Lemma deref_legacy_loop pre layers :
  deref (pre ++ layers) (legacy_loop (length pre) layers) =
    filter (λ d, MediaType d ≠ emptyMediaType) layers.
Proof.
  revert pre. induction layers as [|layer rest IH]; intros pre; [done|].
  assert (pre ++ layer :: rest = (pre ++ [layer]) ++ rest) as Happ
    by (by rewrite <- app_assoc).
  assert (S (length pre) = length (pre ++ [layer])) as Hlen
    by (rewrite length_app; cbn; lia).
  cbn [legacy_loop]. rewrite filter_cons. case_decide as He.
  - rewrite decide_False by (intros H; by apply H).
    rewrite Happ, Hlen. apply IH.
  - rewrite decide_True by done.
    unfold deref. cbn [omap list_omap].
    rewrite (list_lookup_middle pre rest layer (length pre)) by done.
    f_equal. rewrite Happ, Hlen. apply IH.
Qed.

(** C1: a manifest with exactly one provider layer, exactly one assets
    layer and exactly one binary layer for the current platform (whatever
    else it holds: binaries of other platforms, empty placeholders,
    auxiliary layers) is classified without fallback, and the layers queued
    for download are those three, in the order provider, assets, platform
    binary. *)
Theorem classify_selects_three_roles currentOS currentArch layers p a b :
  filter (hasType providerMediaType) layers = [p] →
  filter (hasType assetsMediaType) layers = [a] →
  filter (hasType (binaryMediaType currentOS currentArch)) layers = [b] →
  (∃ ptrs, classify currentOS currentArch layers = Selected ptrs false ∧
           deref layers ptrs = [p; a; b]) ∧
  downloadSet currentOS currentArch layers = Some [p; a; b].
Proof.
  intros Hp Ha Hb.
  destruct (lastOfType_found providerMediaType layers) as (jp & Ep & _ & Lp);
    [by rewrite Hp|].
  destruct (lastOfType_found assetsMediaType layers) as (ja & Ea & _ & La);
    [by rewrite Ha|].
  destruct (lastOfType_found (binaryMediaType currentOS currentArch) layers)
    as (jb & Eb & _ & Lb); [by rewrite Hb|].
  rewrite Hp in Lp. rewrite Ha in La. rewrite Hb in Lb. cbn in Lp, La, Lb.
  assert (classify currentOS currentArch layers = Selected [jp; ja; jb] false) as Hc.
  { unfold classify. rewrite classify_loop_from_start, Ep, Ea, Eb. done. }
  assert (deref layers [jp; ja; jb] = [p; a; b]) as Hd.
  { unfold deref. cbn. by rewrite <- Lp, <- La, <- Lb. }
  split; [by exists [jp; ja; jb]|].
  unfold downloadSet. by rewrite Hc, Hd.
Qed.

(** The scenario of the specification: provider, assets and the binaries
    of two platforms, pulled on darwin/arm64. *)
Lemma classify_selects_three_roles_witness :
  let prov := mkDescriptor providerMediaType "sha256:aa" 4577 in
  let assets := mkDescriptor assetsMediaType "sha256:bb" 3082 in
  let mac := mkDescriptor "application/vnd.sourceplane.bin.darwin-arm64" "sha256:cc" 4613734 in
  let lin := mkDescriptor "application/vnd.sourceplane.bin.linux-amd64" "sha256:dd" 4613734 in
  downloadSet "darwin" "arm64" [prov; assets; mac; lin] = Some [prov; assets; mac].
Proof.
  intros prov assets mac lin.
  apply (classify_selects_three_roles "darwin" "arm64" [prov; assets; mac; lin] prov assets mac);
    reflexivity.
Defined.

(** C3: without a provider layer and without an assets layer the
    classification ends in an error return, whatever the other layers are,
    and nothing is queued for download. *)
Theorem classify_fatal_without_provider_and_assets currentOS currentArch layers :
  (∀ d, d ∈ layers → MediaType d ≠ providerMediaType ∧ MediaType d ≠ assetsMediaType) →
  (∃ msg, classify currentOS currentArch layers = Fatal msg) ∧
  downloadSet currentOS currentArch layers = None.
Proof.
  intros H.
  assert (lastOfType providerMediaType 0 layers = None) as Ep
    by (apply lastOfType_None; intros d Hd; by apply H).
  assert (lastOfType assetsMediaType 0 layers = None) as Ea
    by (apply lastOfType_None; intros d Hd; by apply H).
  assert (∃ msg, classify currentOS currentArch layers = Fatal msg) as [msg Hm].
  { unfold classify. rewrite classify_loop_from_start, Ep, Ea.
    cbn [providerLayer assetsLayer binaryLayer appendIfSet].
    case_decide; [by eexists|].
    rewrite decide_True by done. by eexists. }
  split; [by exists msg|]. unfold downloadSet. by rewrite Hm.
Qed.

Lemma classify_fatal_without_provider_and_assets_witness :
  let mac := mkDescriptor "application/vnd.sourceplane.bin.darwin-arm64" "sha256:cc" 4613734 in
  let extra := mkDescriptor "application/vnd.sourceplane.examples.v1" "sha256:ee" 100 in
  (∃ msg, classify "darwin" "arm64" [mac; extra] = Fatal msg) ∧
  downloadSet "darwin" "arm64" [mac; extra] = None.
Proof.
  intros mac extra.
  apply (classify_fatal_without_provider_and_assets "darwin" "arm64" [mac; extra]).
  intros d Hd. apply list_elem_of_In in Hd. cbn in Hd.
  destruct Hd as [<-|[<-|[]]]; split; discriminate.
Defined.

Lemma classify_falls_back currentOS currentArch layers :
  (∀ d, d ∈ layers → MediaType d ≠ binaryMediaType currentOS currentArch) →
  (∃ d, d ∈ layers ∧ (MediaType d = providerMediaType ∨ MediaType d = assetsMediaType)) →
  classify currentOS currentArch layers = Selected (legacy_loop 0 layers) true.
Proof.
  intros Hnb (d & Hd & Hpa).
  assert (lastOfType (binaryMediaType currentOS currentArch) 0 layers = None) as Eb
    by (by apply lastOfType_None).
  unfold classify. rewrite classify_loop_from_start, Eb.
  cbn [providerLayer assetsLayer binaryLayer].
  destruct (lastOfType providerMediaType 0 layers) as [jp|] eqn:Ep;
    destruct (lastOfType assetsMediaType 0 layers) as [ja|] eqn:Ea; try done.
  rewrite lastOfType_None in Ep. rewrite lastOfType_None in Ea.
  destruct Hpa as [Hp|Ha]; [by apply Ep in Hd | by apply Ea in Hd].
Qed.

(** C2 as stated fails: on linux/arm64 a manifest holding only the binary
    of another platform has no layer for the current platform, and yet the
    classification does not fall back; it ends in an error. *)
Lemma classify_legacy_fallback_counterexample :
  let mac := mkDescriptor "application/vnd.sourceplane.bin.darwin-arm64" "sha256:cc" 4613734 in
  (∀ d, d ∈ [mac] → MediaType d ≠ binaryMediaType "linux" "arm64") ∧
  ¬ (∃ ptrs, classify "linux" "arm64" [mac] = Selected ptrs true ∧
             deref [mac] ptrs = filter (λ d, MediaType d ≠ emptyMediaType) [mac]) ∧
  classify "linux" "arm64" [mac] = Fatal "no compatible provider layers found in manifest".
Proof.
  intros mac. split; [|split].
  - intros d Hd. apply list_elem_of_In in Hd. cbn in Hd.
    destruct Hd as [<-|[]]. discriminate.
  - intros (ptrs & H & _). vm_compute in H. discriminate.
  - reflexivity.
Qed.

(** C2, amended: when no layer has the binary media type of the current
    platform and at least one layer has the provider or the assets media
    type, the classification falls back, and the layers queued for download
    are all the layers that are not the empty placeholder, in manifest
    order. *)
Theorem classify_legacy_fallback currentOS currentArch layers :
  (∀ d, d ∈ layers → MediaType d ≠ binaryMediaType currentOS currentArch) →
  (∃ d, d ∈ layers ∧ (MediaType d = providerMediaType ∨ MediaType d = assetsMediaType)) →
  (∃ ptrs, classify currentOS currentArch layers = Selected ptrs true ∧
           deref layers ptrs = filter (λ d, MediaType d ≠ emptyMediaType) layers) ∧
  downloadSet currentOS currentArch layers =
    Some (filter (λ d, MediaType d ≠ emptyMediaType) layers).
Proof.
  intros Hnb Hpa.
  pose proof (classify_falls_back _ _ _ Hnb Hpa) as Hc.
  pose proof (deref_legacy_loop [] layers) as Hl. cbn in Hl.
  split; [by exists (legacy_loop 0 layers)|].
  unfold downloadSet. by rewrite Hc, Hl.
Qed.

(** The second scenario of the specification: no binary for linux/arm64. *)
Lemma classify_legacy_fallback_witness :
  let prov := mkDescriptor providerMediaType "sha256:aa" 4577 in
  let assets := mkDescriptor assetsMediaType "sha256:bb" 3082 in
  let mac := mkDescriptor "application/vnd.sourceplane.bin.darwin-arm64" "sha256:cc" 4613734 in
  let lin := mkDescriptor "application/vnd.sourceplane.bin.linux-amd64" "sha256:dd" 4613734 in
  downloadSet "linux" "arm64" [prov; assets; mac; lin] = Some [prov; assets; mac; lin].
Proof.
  intros prov assets mac lin.
  apply (classify_legacy_fallback "linux" "arm64" [prov; assets; mac; lin]).
  - intros d Hd. apply list_elem_of_In in Hd. cbn in Hd.
    destruct Hd as [<-|[<-|[<-|[<-|[]]]]]; discriminate.
  - exists prov. split; [by left|]. by left.
Defined.

Lemma deref_app layers ptrs1 ptrs2 :
  deref layers (ptrs1 ++ ptrs2) = deref layers ptrs1 ++ deref layers ptrs2.
Proof.
  unfold deref. induction ptrs1 as [|i ptrs1 IH]; [done|].
  cbn. destruct (layers !! i); cbn; by rewrite IH.
Qed.

Lemma deref_appendIfSet layers acc o :
  deref layers (appendIfSet acc o) = deref layers acc ++ layerAt layers o.
Proof.
  destruct o as [j|]; cbn [appendIfSet layerAt]; [|by rewrite app_nil_r].
  rewrite deref_app. unfold deref. cbn. by destruct (layers !! j).
Qed.

Lemma elem_of_appendIfSet_l (j : nat) acc o : j ∈ acc → j ∈ appendIfSet acc o.
Proof. intros H. destruct o; cbn; [apply elem_of_app; by left | done]. Qed.

Lemma elem_of_appendIfSet_r (j : nat) acc : j ∈ appendIfSet acc (Some j).
Proof. cbn. apply elem_of_app. right. by left. Qed.

Lemma layerAt_lastOfType mt mt' layers :
  (length (filter (hasType mt) (layerAt layers (lastOfType mt' 0 layers))) ≤ 1)%nat ∧
  (mt ≠ mt' → filter (hasType mt) (layerAt layers (lastOfType mt' 0 layers)) = []).
Proof.
  destruct (lastOfType mt' 0 layers) as [n|] eqn:E; cbn; [|split; [lia|done]].
  destruct (lastOfType_Some _ _ _ _ E) as (j & -> & [(d & Hj & Hd) _] & _).
  cbn. rewrite Hj. rewrite filter_cons, filter_nil.
  case_decide as Hm; cbn; split; try lia; try done.
  intros Hne. unfold hasType in Hm. congruence.
Qed.

(** C9 as stated fails: with two provider layers and no binary for the
    current platform the fallback queues both provider layers, so the
    download set holds two layers of one role. *)
Lemma classify_duplicates_counterexample :
  let old := mkDescriptor providerMediaType "sha256:a1" 4577 in
  let new := mkDescriptor providerMediaType "sha256:a2" 4600 in
  classify "linux" "arm64" [old; new] = Selected [0; 1]%nat true ∧
  downloadSet "linux" "arm64" [old; new] = Some [old; new] ∧
  ¬ (length (filter (hasType providerMediaType) [old; new]) ≤ 1)%nat.
Proof.
  intros old new. split; [reflexivity|]. split; [reflexivity|].
  vm_compute. lia.
Qed.

Lemma classify_one_layer_per_role currentOS currentArch layers :
  (∃ d, d ∈ layers ∧ MediaType d = binaryMediaType currentOS currentArch) →
  (∃ d, d ∈ layers ∧ (MediaType d = providerMediaType ∨ MediaType d = assetsMediaType)) →
  ∃ ptrs, classify currentOS currentArch layers = Selected ptrs false ∧
    ∀ mt, mt ∈ [providerMediaType; assetsMediaType; binaryMediaType currentOS currentArch] →
      (length (filter (hasType mt) (deref layers ptrs)) ≤ 1)%nat ∧
      ((∃ d, d ∈ layers ∧ MediaType d = mt) → ∃ j, j ∈ ptrs ∧ isLastOfType mt layers j).
Proof.
  intros (db & Hdb & Hb) (d & Hd & Hpa).
  set (bmt := binaryMediaType currentOS currentArch) in *.
  destruct (binaryMediaType_not_fixed currentOS currentArch) as (Hbe & Hbp & Hba).
  destruct fixed_types_distinct as (Hep & Hea & Hpa').
  fold bmt in Hbe, Hbp, Hba.
  destruct (lastOfType bmt 0 layers) as [jb|] eqn:Eb;
    [|rewrite lastOfType_None in Eb; by apply Eb in Hdb].
  set (P := lastOfType providerMediaType 0 layers).
  set (A := lastOfType assetsMediaType 0 layers).
  assert (¬ (P = None ∧ A = None)) as Hsome.
  { intros [HP HA]. unfold P, A in *.
    rewrite lastOfType_None in HP. rewrite lastOfType_None in HA.
    destruct Hpa as [Hp|Ha]; [by apply HP in Hd | by apply HA in Hd]. }
  exists (appendIfSet (appendIfSet (appendIfSet [] P) A) (Some jb)).
  split.
  { unfold classify. rewrite classify_loop_from_start. fold bmt P A. rewrite Eb.
    cbn [providerLayer assetsLayer binaryLayer].
    rewrite decide_False by (cbn; rewrite length_app; cbn; lia).
    rewrite decide_False by done. rewrite decide_False by done. reflexivity. }
  intros mt Hmt. split.
  - rewrite !deref_appendIfSet, !filter_app, !length_app. cbn [deref omap list_omap app].
    rewrite <- Eb. unfold P, A.
    pose proof (layerAt_lastOfType mt providerMediaType layers) as [Lp Np].
    pose proof (layerAt_lastOfType mt assetsMediaType layers) as [La Na].
    pose proof (layerAt_lastOfType mt bmt layers) as [Lb Nb].
    destruct (decide (mt = providerMediaType)) as [->|Hnp].
    + rewrite Na, Nb by done. cbn. lia.
    + rewrite Np by done. destruct (decide (mt = assetsMediaType)) as [->|Hna].
      * rewrite Nb by done. cbn. lia.
      * rewrite Na by done. cbn. lia.
  - intros (d' & Hd' & Hmt').
    assert (filter (hasType mt) layers ≠ []) as Hne.
    { intros Hnil. by apply (filter_nil_not_elem_of _ _ d' Hnil Hmt'). }
    destruct (lastOfType_found _ _ Hne) as (j & Ej & Hj & _).
    exists j. split; [|done].
    apply list_elem_of_In in Hmt. cbn in Hmt.
    destruct Hmt as [<-|[<-|[<-|[]]]].
    + fold P in Ej. rewrite Ej.
      apply elem_of_appendIfSet_l, elem_of_appendIfSet_l, elem_of_appendIfSet_r.
    + fold A in Ej. rewrite Ej.
      apply elem_of_appendIfSet_l, elem_of_appendIfSet_r.
    + rewrite Eb in Ej. injection Ej as ->. apply elem_of_appendIfSet_r.
Qed.


(** C9, amended: duplicates of a role media type cause no error of their
    own, and each role pointer ends on the last layer of its media type in
    manifest order.  Classification fails exactly when the manifest has
    neither a provider nor an assets layer, duplicates or not (two binaries
    for the platform alone still fail).  When it succeeds and a binary
    layer for the current platform is present there is no fallback, and the
    download set has at most one layer per role, the last one of its media
    type; without such a layer the fallback replaces the per-role selection
    (by all layers that are not the placeholder, duplicates included). *)
Theorem classify_duplicates_last_wins currentOS currentArch layers :
  let bmt := binaryMediaType currentOS currentArch in
  let r := classify_loop bmt 0 layers noRoles in
  let hasProviderData :=
    ∃ d, d ∈ layers ∧ (MediaType d = providerMediaType ∨ MediaType d = assetsMediaType) in
  (∀ mt ptr,
     (mt, ptr) ∈ [(providerMediaType, providerLayer r); (assetsMediaType, assetsLayer r);
                  (bmt, binaryLayer r)] →
     (∃ d, d ∈ layers ∧ MediaType d = mt) → ∃ j, ptr = Some j ∧ isLastOfType mt layers j) ∧
  ((∃ msg, classify currentOS currentArch layers = Fatal msg) ↔ ¬ hasProviderData) ∧
  (hasProviderData →
   ∃ ptrs legacy, classify currentOS currentArch layers = Selected ptrs legacy ∧
    (legacy = false ↔ ∃ d, d ∈ layers ∧ MediaType d = bmt) ∧
    (legacy = true → deref layers ptrs = filter (λ d, MediaType d ≠ emptyMediaType) layers) ∧
    (legacy = false →
       ∀ mt, mt ∈ [providerMediaType; assetsMediaType; bmt] →
         (length (filter (hasType mt) (deref layers ptrs)) ≤ 1)%nat ∧
         ((∃ d, d ∈ layers ∧ MediaType d = mt) → ∃ j, j ∈ ptrs ∧ isLastOfType mt layers j))).
Proof.
  intros bmt r hasProviderData.
  assert (hasProviderData →
    ∃ ptrs legacy, classify currentOS currentArch layers = Selected ptrs legacy ∧
      (legacy = false ↔ ∃ d, d ∈ layers ∧ MediaType d = bmt) ∧
      (legacy = true → deref layers ptrs = filter (λ d, MediaType d ≠ emptyMediaType) layers) ∧
      (legacy = false →
         ∀ mt, mt ∈ [providerMediaType; assetsMediaType; bmt] →
           (length (filter (hasType mt) (deref layers ptrs)) ≤ 1)%nat ∧
           ((∃ d, d ∈ layers ∧ MediaType d = mt) →
              ∃ j, j ∈ ptrs ∧ isLastOfType mt layers j))) as Hsel.
  { intros Hpa. destruct (lastOfType bmt 0 layers) as [jb|] eqn:Eb.
    - destruct (lastOfType_Some _ _ _ _ Eb) as (j & _ & [(db & Hj & Hdb) _] & _).
      assert (∃ d, d ∈ layers ∧ MediaType d = bmt) as Hbin.
      { exists db. split; [by eapply list_elem_of_lookup_2 | done]. }
      destruct (classify_one_layer_per_role _ _ _ Hbin Hpa) as (ptrs & Hc & Hone).
      exists ptrs, false. split; [done|]. split; [done|]. split; [done|]. done.
    - rewrite lastOfType_None in Eb.
      exists (legacy_loop 0 layers), true. split; [by apply classify_falls_back|].
      split; [|split; [|done]].
      + split; [done|]. intros (d & Hd & Hmt). by apply Eb in Hd.
      + intros _. apply (deref_legacy_loop [] layers). }
  split; [|split; [split|exact Hsel]].
  - intros mt ptr Hin (d & Hd & Hmt).
    assert (filter (hasType mt) layers ≠ []) as Hne.
    { intros Hnil. by apply (filter_nil_not_elem_of _ _ d Hnil Hmt). }
    destruct (lastOfType_found _ _ Hne) as (j & Ej & Hj & _).
    exists j. split; [|done].
    unfold r, bmt in Hin. rewrite classify_loop_from_start in Hin.
    cbn [providerLayer assetsLayer binaryLayer] in Hin.
    apply list_elem_of_In in Hin. cbn in Hin.
    destruct Hin as [[= <- <-]|[[= <- <-]|[[= <- <-]|[]]]]; done.
  - intros [msg Hmsg] Hpa. destruct (Hsel Hpa) as (ptrs & legacy & Hc & _). congruence.
  - intros Hno.
    assert (lastOfType providerMediaType 0 layers = None) as Ep.
    { apply lastOfType_None. intros d Hd Hm. apply Hno. exists d. by split; [|left]. }
    assert (lastOfType assetsMediaType 0 layers = None) as Ea.
    { apply lastOfType_None. intros d Hd Hm. apply Hno. exists d. by split; [|right]. }
    unfold classify. rewrite classify_loop_from_start, Ep, Ea.
    cbn [providerLayer assetsLayer binaryLayer appendIfSet].
    case_decide; [by eexists|].
    rewrite decide_True by done. by eexists.
Qed.

(** Two provider layers and two binaries for the platform: the later of
    each pair is the one that is downloaded; the two binaries on their own
    are refused. *)
Lemma classify_duplicates_last_wins_witness :
  let old := mkDescriptor providerMediaType "sha256:a1" 4577 in
  let new := mkDescriptor providerMediaType "sha256:a2" 4600 in
  let bin1 := mkDescriptor "application/vnd.sourceplane.bin.linux-arm64" "sha256:c1" 4613734 in
  let bin2 := mkDescriptor "application/vnd.sourceplane.bin.linux-arm64" "sha256:c2" 4613735 in
  let layers := [old; bin1; new; bin2] in
  (∃ ptrs legacy, classify "linux" "arm64" layers = Selected ptrs legacy ∧
    (legacy = false ↔ ∃ d, d ∈ layers ∧ MediaType d = binaryMediaType "linux" "arm64") ∧
    (legacy = true → deref layers ptrs = filter (λ d, MediaType d ≠ emptyMediaType) layers) ∧
    (legacy = false →
       ∀ mt, mt ∈ [providerMediaType; assetsMediaType; binaryMediaType "linux" "arm64"] →
         (length (filter (hasType mt) (deref layers ptrs)) ≤ 1)%nat ∧
         ((∃ d, d ∈ layers ∧ MediaType d = mt) → ∃ j, j ∈ ptrs ∧ isLastOfType mt layers j))) ∧
  ∃ msg, classify "linux" "arm64" [bin1; bin2] = Fatal msg.
Proof.
  intros old new bin1 bin2 layers. split.
  - apply (classify_duplicates_last_wins "linux" "arm64" layers).
    exists old. split; [by left|]. by left.
  - apply (classify_duplicates_last_wins "linux" "arm64" [bin1; bin2]).
    intros (d & Hd & Hm). apply list_elem_of_In in Hd.
    destruct Hd as [<-|[<-|[]]]; destruct Hm; discriminate.
Defined.

Example classify_duplicates_run :
  let old := mkDescriptor providerMediaType "sha256:a1" 4577 in
  let new := mkDescriptor providerMediaType "sha256:a2" 4600 in
  let bin1 := mkDescriptor "application/vnd.sourceplane.bin.linux-arm64" "sha256:c1" 4613734 in
  let bin2 := mkDescriptor "application/vnd.sourceplane.bin.linux-arm64" "sha256:c2" 4613735 in
  downloadSet "linux" "arm64" [old; bin1; new; bin2] = Some [new; bin2].
Proof. reflexivity. Qed.

(** ** String helpers *)

Lemma string_length_append (a b : string) :
  String.length (a +:+ b) = (String.length a + String.length b)%nat.
Proof. induction a as [|c a IH]; [done|]. simpl. by f_equal. Qed.

Lemma substring_head (substr s : string) :
  substring 0 (String.length substr) s = substr ↔ ∃ post, s = substr +:+ post.
Proof.
  revert s. induction substr as [|c substr IH]; intros s; cbn.
  - split; [intros _; by exists s | intros _; by destruct s].
  - destruct s as [|c' s]; cbn.
    + split; [done | intros [post H]; done].
    + split.
      * intros [= -> H]. apply IH in H as [post ->]. by exists post.
      * intros [post [= -> ->]]. f_equal. apply IH. by exists post.
Qed.

Lemma occursAt_cons c s substr i :
  occursAt (String c s) substr (S i) ↔ occursAt s substr i.
Proof.
  split.
  - intros (pre & post & Hs & Hl). destruct pre as [|c' pre]; [done|].
    cbn in Hs, Hl. injection Hs as -> ->. exists pre, post. split; [done | lia].
  - intros (pre & post & -> & Hl). exists (String c pre), post. split; [done | cbn; lia].
Qed.

Lemma occursAt_in_range s substr i :
  occursAt s substr i → (i + String.length substr ≤ String.length s)%nat.
Proof.
  intros (pre & post & -> & <-). rewrite !string_length_append. lia.
Qed.

Lemma sliceEq_occursAt s substr i :
  (i + String.length substr ≤ String.length s)%nat →
  sliceEq s substr i = true ↔ occursAt s substr i.
Proof.
  unfold sliceEq. rewrite String.eqb_eq.
  revert s. induction i as [|i IH]; intros s Hr.
  - rewrite substring_head. split.
    + intros [post ->]. by exists EmptyString, post.
    + intros (pre & post & -> & Hl). destruct pre; [|done]. by exists post.
  - destruct s as [|c s]; [cbn in Hr; lia|].
    rewrite occursAt_cons. cbn [substring]. apply IH. cbn in Hr. lia.
Qed.

Lemma loopCount_lt s substr k :
  (k < loopCount s substr)%nat ↔ (k + String.length substr ≤ String.length s)%nat.
Proof. unfold loopCount. lia. Qed.

Lemma contains_loop_true s substr i n :
  contains_loop s substr i n = true ↔
  ∃ k, (i ≤ k < i + n)%nat ∧ sliceEq s substr k = true.
Proof.
  revert i. induction n as [|n IH]; intros i; cbn [contains_loop].
  - split; [done | intros (k & Hk & _); lia].
  - destruct (sliceEq s substr i) eqn:E.
    + split; [intros _; exists i; split; [lia | done] | done].
    + rewrite IH. split.
      * intros (k & Hk & Hs). exists k. split; [lia | done].
      * intros (k & Hk & Hs). exists k. split; [|done].
        destruct (decide (k = i)) as [->|]; [congruence | lia].
Qed.

Lemma lastIndexOf_loop_spec s substr i n last :
  (lastIndexOf_loop s substr i n last = last ∧
   ∀ k, (i ≤ k < i + n)%nat → sliceEq s substr k = false) ∨
  (∃ k, lastIndexOf_loop s substr i n last = Z.of_nat k ∧ (i ≤ k < i + n)%nat ∧
        sliceEq s substr k = true ∧
        ∀ k', (i ≤ k' < i + n)%nat → sliceEq s substr k' = true → (k' ≤ k)%nat).
Proof.
  revert i last. induction n as [|n IH]; intros i last; cbn [lastIndexOf_loop].
  - left. split; [done | intros k Hk; lia].
  - destruct (IH (S i) (if sliceEq s substr i then Z.of_nat i else last))
      as [[Hr Hnone] | (k & Hr & Hk & Hs & Hmax)].
    + destruct (sliceEq s substr i) eqn:E.
      * right. exists i. split; [done|]. split; [lia|]. split; [done|].
        intros k' Hk' Hs'. destruct (decide (k' = i)) as [->|]; [lia|].
        rewrite Hnone in Hs' by lia. done.
      * left. split; [done|]. intros k Hk.
        destruct (decide (k = i)) as [->|]; [done | apply Hnone; lia].
    + right. exists k. split; [done|]. split; [lia|]. split; [done|].
      intros k' Hk' Hs'. destruct (decide (k' = i)) as [->|]; [lia | apply Hmax; [lia | done]].
Qed.

(** C10: [contains] is true exactly when [substr] occurs in [s] (so it is
    true for the empty [substr]), and [lastIndexOf] is the greatest offset
    at which [substr] occurs in [s], or -1 when it does not occur: the two
    helpers agree with [strings.Contains] and [strings.LastIndex]. *)
Theorem contains_lastIndexOf_agree_with_strings s substr :
  (contains s substr = true ↔ strings_Contains s substr) ∧
  strings_LastIndex s substr (lastIndexOf s substr) ∧
  contains s "" = true.
Proof.
  split; [|split].
  - unfold contains, strings_Contains. rewrite contains_loop_true. split.
    + intros (k & Hk & Hs). exists k. apply sliceEq_occursAt; [|done].
      apply loopCount_lt. lia.
    + intros (k & Hk). pose proof (occursAt_in_range _ _ _ Hk) as Hr.
      exists k. split; [apply loopCount_lt in Hr; lia|]. by apply sliceEq_occursAt.
  - unfold lastIndexOf, strings_LastIndex, strings_Contains.
    destruct (lastIndexOf_loop_spec s substr 0 (loopCount s substr) (-1))
      as [[Hr Hnone] | (k & Hr & Hk & Hs & Hmax)].
    + left. split; [done|]. intros (k & Hk).
      pose proof (occursAt_in_range _ _ _ Hk) as Hrange.
      apply sliceEq_occursAt in Hk; [|done].
      rewrite Hnone in Hk; [done|]. apply loopCount_lt in Hrange. lia.
    + right. exists k. split; [done|].
      assert (k + String.length substr ≤ String.length s)%nat as Hrange
        by (apply loopCount_lt; lia).
      split; [by apply sliceEq_occursAt|].
      intros j Hj. pose proof (occursAt_in_range _ _ _ Hj) as Hrj.
      apply Hmax; [apply loopCount_lt in Hrj; lia | by apply sliceEq_occursAt].
  - unfold contains. apply contains_loop_true. exists 0%nat.
    split; [unfold loopCount; cbn; lia|]. unfold sliceEq. cbn. by destruct s.
Qed.

Example lastIndexOf_port_and_tag :
  lastIndexOf "localhost:5000/lite:v1" ":" = 19 ∧ lastIndexOf "lite" ":" = -1 ∧
  lastIndexOf "lite" "" = 4 ∧ contains "lite" "lite-ci" = false.
Proof. by vm_compute. Qed.

(** ** The providers home *)

(** C7 as stated fails: with no override and a [.thin] entry in the working
    directory, the home is that entry, which is neither the override nor
    derived from the user's home directory. *)
Lemma ThinHome_two_sources_counterexample :
  let env := mkEnviron (λ _, "") "/home/u" in
  let fs := mkFS {[ ["proj"; ".thin"] := Dir 0x1ed ]} ["proj"] 0x12 in
  ThinHome env fs = "/proj/.thin" ∧
  ThinHome env fs ≠ os_Getenv env "THIN_HOME" ∧
  ThinHome env fs ≠ filepath_Join [os_UserHomeDir env; ".thin"].
Proof. intros env fs. split; [reflexivity|]. split; vm_compute; discriminate. Qed.

(** C7, amended: there are three sources, tried in this order: the value
    of the override variable when it is not empty; otherwise the [.thin]
    entry of the working directory when it exists; otherwise [.thin] under
    the user's home directory. *)
Theorem ThinHome_sources env fs :
  (os_Getenv env "THIN_HOME" ≠ "" → ThinHome env fs = os_Getenv env "THIN_HOME") ∧
  (os_Getenv env "THIN_HOME" = "" → os_Stat_ok fs ".thin" = true →
     ThinHome env fs = filepath_Join [os_Getwd fs; ".thin"]) ∧
  (os_Getenv env "THIN_HOME" = "" → os_Stat_ok fs ".thin" = false →
     ThinHome env fs = filepath_Join [os_UserHomeDir env; ".thin"]).
Proof.
  unfold ThinHome. repeat split.
  - intros Hv. by rewrite bool_decide_eq_false_2.
  - intros -> ->. done.
  - intros -> ->. done.
Qed.

Lemma ThinHome_sources_witness :
  let fs := mkFS {[ ["proj"; ".thin"] := Dir 0x1ed ]} ["proj"] 0x12 in
  ThinHome (mkEnviron (λ _, "/opt/thin") "/home/u") fs = "/opt/thin" ∧
  ThinHome (mkEnviron (λ _, "") "/home/u") fs = "/proj/.thin" ∧
  ThinHome (mkEnviron (λ _, "") "/home/u") (mkFS ∅ ["proj"] 0x12) = "/home/u/.thin".
Proof.
  intros fs. split; [|split].
  - apply (ThinHome_sources (mkEnviron (λ _, "/opt/thin") "/home/u") fs). discriminate.
  - apply (ThinHome_sources (mkEnviron (λ _, "") "/home/u") fs); reflexivity.
  - apply (ThinHome_sources (mkEnviron (λ _, "") "/home/u") (mkFS ∅ ["proj"] 0x12));
      reflexivity.
Defined.

(** ** The byte-counting reader *)

(** C5, the behaviour of the code: [trackedFetchAll] hands the fetch to
    [content.FetchAll] and makes no call on the handler, so a worker
    reports no byte progress for any layer, whatever the fetch returns;
    the only calls it makes are the two lifecycle events. *)
Theorem trackedFetchAll_reports_no_progress fetchAll layer :
  snd (trackedFetchAll fetchAll layer) = [] ∧
  fst (trackedFetchAll fetchAll layer) = fetchAll layer ∧
  filter isUpdateProgress (snd (worker_job fetchAll layer)) = [] ∧
  reportedBytes (Digest layer) (snd (worker_job fetchAll layer)) = [].
Proof.
  unfold worker_job, trackedFetchAll. by destruct (fetchAll layer).
Qed.

Example worker_job_binary_layer :
  let mac := mkDescriptor "application/vnd.sourceplane.bin.darwin-arm64" "sha256:cc" 4613734 in
  worker_job (λ _, inr [x7f; x45; x4c; x46]) mac =
    (inr [x7f; x45; x4c; x46], [OnNodeDownloading mac; OnNodeDownloaded mac]).
Proof. reflexivity. Qed.

Lemma wrap64_small z : - 2 ^ 63 ≤ z < 2 ^ 63 → wrap64 z = z.
Proof. intros H. unfold wrap64. rewrite Z.mod_small; lia. Qed.

Lemma bytesDelivered_nonneg reads : 0 ≤ bytesDelivered reads.
Proof. induction reads as [|[n t] rest IH]; cbn [bytesDelivered]; lia. Qed.

Lemma nondecreasing_cons x l :
  Forall (λ v, x ≤ v) l → nondecreasing l → nondecreasing (x :: l).
Proof.
  intros Hall Hl. destruct l as [|y l]; [done|].
  cbn [nondecreasing]. split; [by inversion Hall | done].
Qed.

(** X8: the adapter on its own does what the specification asks of it: as
    long as the int64 counter does not overflow, the values it reports
    for its digest are cumulative and never decrease. *)
Lemma progressTracker_reports_nondecreasing reads pt :
  0 ≤ bytesRead pt → bytesRead pt + bytesDelivered reads < 2 ^ 63 →
  Forall (λ v, bytesRead pt ≤ v) (reportedBytes (digest pt) (progressTracker_run pt reads)) ∧
  nondecreasing (reportedBytes (digest pt) (progressTracker_run pt reads)).
Proof.
  revert pt. induction reads as [|[n now] rest IH]; intros pt H0 Hsum.
  - cbn. split; [constructor | done].
  - cbn [progressTracker_run bytesDelivered] in *.
    pose proof (bytesDelivered_nonneg rest) as Hrest.
    unfold progressTracker_Read.
    destruct (0 <? n) eqn:En.
    + apply Z.ltb_lt in En.
      rewrite wrap64_small by lia.
      destruct (updateFreq pt <=? time_Sub now (lastUpdate pt)).
      * destruct (IH (mkTracker (digest pt) (bytesRead pt + n) now (updateFreq pt)))
          as [Hall Hmono]; cbn [bytesRead digest]; [lia | lia |].
        cbn [app reportedBytes]. rewrite decide_True by done.
        cbn [digest bytesRead] in Hall, Hmono. split.
        -- constructor; [lia|]. eapply Forall_impl; [exact Hall|]. cbn. intros; lia.
        -- by apply nondecreasing_cons.
      * destruct (IH (mkTracker (digest pt) (bytesRead pt + n) (lastUpdate pt) (updateFreq pt)))
          as [Hall Hmono]; cbn [bytesRead digest]; [lia | lia |].
        cbn [app]. cbn [digest bytesRead] in Hall, Hmono. split; [|done].
        eapply Forall_impl; [exact Hall|]. cbn. intros; lia.
    + apply Z.ltb_ge in En. cbn [app]. apply IH; lia.
Qed.

Lemma progressTracker_reports_nondecreasing_witness :
  let pt := mkTracker "sha256:3433ea3ed" 0 0 100 in
  let reads := [(4096, 50); (4096, 120); (0, 400); (808, 230)] in
  reportedBytes (digest pt) (progressTracker_run pt reads) = [8192; 9000] ∧
  Forall (λ v, bytesRead pt ≤ v) (reportedBytes (digest pt) (progressTracker_run pt reads)) ∧
  nondecreasing (reportedBytes (digest pt) (progressTracker_run pt reads)).
Proof.
  intros pt reads. split; [reflexivity|].
  apply (progressTracker_reports_nondecreasing reads pt); vm_compute; [discriminate | reflexivity].
Defined.

Example progressTracker_run_three_reads :
  progressTracker_run (mkTracker "sha256:cc" 0 0 100) [(4096, 50); (4096, 120); (0, 400); (808, 230)]
  = [UpdateProgress "sha256:cc" 8192; UpdateProgress "sha256:cc" 9000].
Proof. reflexivity. Qed.

(** ** The progress gauge *)

(** C8: whenever [render] draws, the completion fraction it shows is the
    quotient of the bytes read by the declared size, replaced by 1.0 when
    the quotient is above 1.0; it is never above 1.0, and when more bytes
    arrived than declared the gauge is exactly full: fraction 1.0, all 20
    cells of the bar, 100 percent. *)
Theorem render_fraction_clamped h g :
  render h = Some g →
  ∃ p, progress h !! currentNode h = Some p ∧
    let quotient := PrimFloat.div (float64_of_int64 (BytesRead p))
                      (float64_of_int64 (Size (npDescriptor p))) in
    fraction g = (if PrimFloat.ltb 1%float quotient then 1%float else quotient) ∧
    PrimFloat.ltb 1%float (fraction g) = false ∧
    (PrimFloat.ltb 1%float quotient = true →
       fraction g = 1%float ∧ filledLength g = Some barLength ∧ percent g = 100%float).
Proof.
  unfold render. case_decide; [done|].
  destruct (progress h !! currentNode h) as [p|]; [|done].
  case_decide; [|done]. intros [= <-]. exists p. split; [done|].
  cbn [fraction filledLength percent]. unfold render_progress.
  destruct (PrimFloat.ltb 1 (PrimFloat.div _ _)) eqn:E.
  - repeat split; reflexivity.
  - repeat split; [exact E | done | done | done].
Qed.

(** A layer declared with 4613734 bytes of which 5000000 have arrived. *)
Lemma render_fraction_clamped_witness :
  let p := mkNodeProgress (mkDescriptor "application/vnd.sourceplane.bin.darwin-arm64"
                             "sha256:cc" 4613734) "Downloading" 5000000 0 in
  let h := mkTTY {[ "sha256:cc" := p ]} "sha256:cc" 7 in
  render h = Some (mkGauge 1%float (Some 20) 100%float) ∧
  ∃ p', progress h !! currentNode h = Some p' ∧
    let quotient := PrimFloat.div (float64_of_int64 (BytesRead p'))
                      (float64_of_int64 (Size (npDescriptor p'))) in
    fraction (mkGauge 1%float (Some 20) 100%float) =
      (if PrimFloat.ltb 1%float quotient then 1%float else quotient) ∧
    PrimFloat.ltb 1%float (fraction (mkGauge 1%float (Some 20) 100%float)) = false ∧
    (PrimFloat.ltb 1%float quotient = true →
       fraction (mkGauge 1%float (Some 20) 100%float) = 1%float ∧
       filledLength (mkGauge 1%float (Some 20) 100%float) = Some barLength ∧
       percent (mkGauge 1%float (Some 20) 100%float) = 100%float).
Proof.
  intros p h. split; [reflexivity|].
  apply (render_fraction_clamped h (mkGauge 1%float (Some 20) 100%float)). reflexivity.
Defined.

Example render_three_quarters :
  let p := mkNodeProgress (mkDescriptor "m" "sha256:cc" 4000) "Downloading" 3000 0 in
  render (mkTTY {[ "sha256:cc" := p ]} "sha256:cc" 0) =
    Some (mkGauge 0.75%float (Some 15) 75%float).
Proof. reflexivity. Qed.

(** ** The file-system operations *)

Lemma bind_Ok r k fs' : r >>= k = Ok fs' → ∃ fs1, r = Ok fs1 ∧ k fs1 = Ok fs'.
Proof. destruct r as [fs1|msg]; [|done]. intros H. by exists fs1. Qed.

Lemma resolve_cwd fs1 fs2 p : cwd fs1 = cwd fs2 → resolve fs1 p = resolve fs2 p.
Proof. unfold resolve. by intros ->. Qed.

Lemma lookupNode_setNode_eq fs key n :
  key ≠ [] → lookupNode (setNode fs key n) key = Some n.
Proof.
  destruct key as [|e key]; [done|]. intros _.
  unfold lookupNode, setNode. cbn [nodes]. apply lookup_insert_eq.
Qed.

Lemma lookupNode_setNode_ne fs key k n :
  key ≠ k → lookupNode (setNode fs key n) k = lookupNode fs k.
Proof.
  intros Hne. destruct k as [|e k]; [done|].
  unfold lookupNode, setNode. cbn [nodes]. by apply lookup_insert_ne.
Qed.

Lemma snoc_not_nil (pre : list string) e : pre ++ [e] ≠ [].
Proof. by destruct pre. Qed.

Lemma mkdirAll_from_Ok rest pre perm fs fs' :
  mkdirAll_from pre rest perm fs = Ok fs' →
  cwd fs' = cwd fs ∧
  (∀ k n, lookupNode fs k = Some n → lookupNode fs' k = Some n) ∧
  (rest ≠ [] → ∃ m, lookupNode fs' (pre ++ rest) = Some (Dir m)).
Proof.
  revert pre fs. induction rest as [|elem rest IH]; intros pre fs; cbn [mkdirAll_from].
  - intros [= <-]. done.
  - assert (pre ++ elem :: rest = (pre ++ [elem]) ++ rest) as Happ
      by (by rewrite <- app_assoc).
    destruct (lookupNode fs (pre ++ [elem])) as [[mode content|mode]|] eqn:E; [done| |].
    + intros H. destruct (IH _ _ H) as (Hc & Hkeep & Hdir).
      split; [done|]. split; [done|]. intros _.
      destruct rest as [|elem' rest].
      * cbn in H. injection H as <-. by exists mode.
      * rewrite Happ. by apply Hdir.
    + intros H. destruct (IH _ _ H) as (Hc & Hkeep & Hdir).
      split; [done|]. split.
      * intros k n Hk. apply Hkeep. rewrite lookupNode_setNode_ne; [done|].
        intros <-. congruence.
      * intros _. destruct rest as [|elem' rest].
        -- cbn in H. injection H as <-. eexists.
           apply lookupNode_setNode_eq, snoc_not_nil.
        -- rewrite Happ. by apply Hdir.
Qed.

Lemma os_MkdirAll_Ok p perm fs fs' :
  os_MkdirAll p perm fs = Ok fs' →
  cwd fs' = cwd fs ∧
  (∀ k n, lookupNode fs k = Some n → lookupNode fs' k = Some n) ∧
  ∃ m, lookupNode fs' (resolve fs p) = Some (Dir m).
Proof.
  unfold os_MkdirAll. intros H.
  destruct (mkdirAll_from_Ok _ _ _ _ _ H) as (Hc & Hkeep & Hdir).
  split; [done|]. split; [done|].
  destruct (resolve fs p) as [|e key] eqn:E; [by eexists|].
  by apply Hdir.
Qed.

Lemma openTruncWrite_Ok name data perm fs fs' :
  openTruncWrite name data perm fs = Ok fs' →
  cwd fs' = cwd fs ∧
  (∃ m, lookupNode fs' (resolve fs name) = Some (File m data)) ∧
  (∀ k, k ≠ resolve fs name → lookupNode fs' k = lookupNode fs k).
Proof.
  unfold openTruncWrite.
  destruct (lookupNode fs (removelast (resolve fs name))) as [[m0 c0|m0]|]; [done| |done].
  destruct (resolve fs name) as [|e key] eqn:E; [done|].
  destruct (lookupNode fs (e :: key)) as [[m1 c1|m1]|] eqn:El; [|done|];
    intros [= <-]; (split; [done|]); (split; [eexists; by apply lookupNode_setNode_eq|]);
    intros k Hk; by apply lookupNode_setNode_ne.
Qed.

Lemma os_Chmod_Ok name mode fs fs' :
  os_Chmod name mode fs = Ok fs' →
  cwd fs' = cwd fs ∧
  (∀ m content, lookupNode fs (resolve fs name) = Some (File m content) →
      lookupNode fs' (resolve fs name) = Some (File (syscallMode mode) content)) ∧
  (∀ k, k ≠ resolve fs name → lookupNode fs' k = lookupNode fs k).
Proof.
  unfold os_Chmod.
  destruct (resolve fs name) as [|e key] eqn:E.
  - intros [= <-]. done.
  - destruct (lookupNode fs (e :: key)) as [[m0 content|m0]|] eqn:El; [| |done];
      intros [= <-]; (split; [done|]); split.
    + intros m c [= -> ->]. by apply lookupNode_setNode_eq.
    + intros k Hk. by apply lookupNode_setNode_ne.
    + done.
    + intros k Hk. by apply lookupNode_setNode_ne.
Qed.

(** *** Mode arithmetic *)

Lemma syscallMode_permBits m :
  Z.land (syscallMode (FileMode_of_int64 m)) 0x1ff = Z.land m 0x1ff.
Proof.
  unfold syscallMode, FileMode_of_int64.
  rewrite Z.land_lor_distr_l.
  rewrite <- !Z.land_assoc. change (Z.land 0x1ff 0x1ff) with 0x1ff.
  change (Z.land 0xffffffff 0x1ff) with 0x1ff.
  replace (Z.land (Z.lor _ _) 0x1ff) with 0; [by rewrite Z.lor_0_r|].
  by destruct (Z.testbit _ 23), (Z.testbit _ 22), (Z.testbit _ 20).
Qed.

Lemma syscallMode_permission_only m :
  0 ≤ m ≤ 0x1ff → syscallMode (FileMode_of_int64 m) = m.
Proof.
  intros Hm. unfold syscallMode, FileMode_of_int64.
  assert (Z.land m 0xffffffff = m) as ->.
  { change 0xffffffff with (Z.ones 32). rewrite Z.land_ones by lia.
    apply Z.mod_small. lia. }
  assert (Z.land m 0x1ff = m) as ->.
  { change 0x1ff with (Z.ones 9). rewrite Z.land_ones by lia.
    apply Z.mod_small. lia. }
  assert (∀ k, 9 ≤ k → Z.testbit m k = false) as Hhigh.
  { intros k Hk. rewrite <- (Z.mod_small m (2 ^ 9)) by lia.
    apply Z.mod_pow2_bits_high. lia. }
  rewrite !Hhigh by lia. cbn. by rewrite Z.lor_0_r.
Qed.

(** ** Tar extraction *)

Lemma TypeDir_not_TypeReg : TypeDir ≠ TypeReg.
Proof. discriminate. Qed.

Section TarLoop.
Context (fin : option string) (targetDir : string).

(** One turn of the loop that does not fail: the other nodes stay as they
    are, and a regular-file entry leaves its bytes under its own mode. *)
Lemma extractEntries_cons_Ok e rest fs fs' :
  extractEntries (e :: rest) fin targetDir fs = Ok fs' →
  ∃ fs1, cwd fs1 = cwd fs ∧ extractEntries rest fin targetDir fs1 = Ok fs' ∧
    (∀ k n, lookupNode fs k = Some n →
       (Typeflag (header e) = TypeReg → targetKey fs targetDir e ≠ k) →
       lookupNode fs1 k = Some n) ∧
    (Typeflag (header e) = TypeReg →
       lookupNode fs1 (targetKey fs targetDir e) =
         Some (File (syscallMode (FileMode_of_int64 (Mode (header e)))) (body e))).
Proof.
  cbn [extractEntries]. unfold targetKey.
  set (targetPath := filepath_Join [targetDir; Name (header e)]).
  case_decide as Hdir; [|case_decide as Hreg].
  - intros H. apply bind_Ok in H as (fs1 & Hmk & Hrest).
    apply os_MkdirAll_Ok in Hmk as (Hc & Hkeep & _).
    exists fs1. split; [done|]. split; [done|]. split.
    + intros k n Hk _. by apply Hkeep.
    + intros Hreg. rewrite Hdir in Hreg. by apply TypeDir_not_TypeReg in Hreg.
  - intros H. apply bind_Ok in H as (fs1 & Hmk & H).
    apply bind_Ok in H as (fs2 & Hcr & H).
    destruct (bodyErr e); [done|].
    apply bind_Ok in H as (fs3 & Hch & Hrest).
    apply os_MkdirAll_Ok in Hmk as (Hc1 & Hkeep1 & _).
    apply openTruncWrite_Ok in Hcr as (Hc2 & (m & Hfile) & Hkeep2).
    apply os_Chmod_Ok in Hch as (Hc3 & Hmode & Hkeep3).
    rewrite (resolve_cwd fs1 fs) in Hfile, Hkeep2 by done.
    rewrite (resolve_cwd fs2 fs) in Hmode, Hkeep3 by congruence.
    exists fs3. split; [congruence|]. split; [done|]. split.
    + intros k n Hk Hne. specialize (Hne Hreg).
      rewrite Hkeep3, Hkeep2 by done. by apply Hkeep1.
    + intros _. by apply (Hmode m).
  - intros H. exists fs. split; [done|]. split; [done|]. split; [|done].
    intros k n Hk _. done.
Qed.

Lemma targetKey_cwd fs1 fs2 e :
  cwd fs1 = cwd fs2 → targetKey fs1 targetDir e = targetKey fs2 targetDir e.
Proof. intros H. unfold targetKey. by apply resolve_cwd. Qed.

(** Entries that do not write to [k] leave the node at [k] alone. *)
Lemma extractEntries_keeps es fs fs' k n :
  extractEntries es fin targetDir fs = Ok fs' →
  lookupNode fs k = Some n →
  (∀ e', e' ∈ es → Typeflag (header e') = TypeReg → targetKey fs targetDir e' ≠ k) →
  lookupNode fs' k = Some n.
Proof.
  revert fs. induction es as [|e rest IH]; intros fs H Hk Hother.
  - cbn in H. destruct fin; [done|]. by injection H as <-.
  - apply extractEntries_cons_Ok in H as (fs1 & Hc & Hrest & Hkeep & _).
    apply (IH fs1); [done| |].
    + apply Hkeep; [done|]. apply Hother. by left.
    + intros e' He' Hreg. rewrite (targetKey_cwd fs1 fs) by done.
      apply Hother; [by right | done].
Qed.

(** The entries before the one of interest only have to succeed. *)
Lemma extractEntries_app_Ok es1 es2 fs fs' :
  extractEntries (es1 ++ es2) fin targetDir fs = Ok fs' →
  ∃ fs1, cwd fs1 = cwd fs ∧ extractEntries es2 fin targetDir fs1 = Ok fs'.
Proof.
  revert fs. induction es1 as [|e rest IH]; intros fs H.
  - by exists fs.
  - cbn [app] in H. apply extractEntries_cons_Ok in H as (fs1 & Hc & Hrest & _).
    destruct (IH _ Hrest) as (fs2 & Hc2 & H2). exists fs2. split; [congruence | done].
Qed.

End TarLoop.

(** C6 as stated fails: an archive may hold two regular-file entries for
    one path; the file then carries the mode of the later entry, not the
    executable mode of the earlier one. *)
Lemma extract_mode_counterexample :
  let e1 := mkEntry (mkHeader "bin/entrypoint" 0x1ed TypeReg) [x7f; x45; x4c; x46] None in
  let e2 := mkEntry (mkHeader "bin/entrypoint" 0x1a4 TypeReg) [x23; x21] None in
  let c := mkCodecs (λ _, inl "gzip: invalid header") (λ _, mkStream [e1; e2] None) in
  let fs := mkFS {[ ["r"] := Dir 0x1ed ]} [] 0x12 in
  ∃ fs', extractTarWithReader c (bytes_NewReader []) "/r" fs = Ok fs' ∧
    e1 ∈ entries (tar_NewReader c (bytes_NewReader [])) ∧
    Typeflag (header e1) = TypeReg ∧
    targetKey fs "/r" e1 = ["r"; "bin"; "entrypoint"] ∧
    lookupNode fs' ["r"; "bin"; "entrypoint"] = Some (File 0x1a4 [x23; x21]) ∧
    ¬ (∃ n, lookupNode fs' (targetKey fs "/r" e1) = Some n ∧ permBits n = Mode (header e1)).
Proof.
  intros e1 e2 c fs. eexists. split; [vm_compute; reflexivity|].
  split; [by left|]. split; [done|]. split; [reflexivity|]. split; [reflexivity|].
  intros (n & Hn & Hp). vm_compute in Hn. injection Hn as <-. vm_compute in Hp. done.
Qed.

(** C6, amended: when the extraction of a tar stream succeeds, every
    regular-file entry that no later regular-file entry of the archive
    overwrites is a file at its path under the target directory, holding
    the entry's bytes, whose nine permission bits are those of the
    entry's mode (and whose mode is the entry's mode when that has
    permission bits only), whatever the umask; the mode is set by the
    extraction itself. *)
Theorem extractTar_keeps_permissions c r targetDir fs fs' es1 e es2 :
  extractTarWithReader c r targetDir fs = Ok fs' →
  entries (tar_NewReader c r) = es1 ++ e :: es2 →
  Typeflag (header e) = TypeReg →
  (∀ e', e' ∈ es2 → Typeflag (header e') = TypeReg →
         targetKey fs targetDir e' ≠ targetKey fs targetDir e) →
  ∃ mode, lookupNode fs' (targetKey fs targetDir e) = Some (File mode (body e)) ∧
    permBits (File mode (body e)) = Z.land (Mode (header e)) 0x1ff ∧
    (0 ≤ Mode (header e) ≤ 0x1ff → mode = Mode (header e)).
Proof.
  unfold extractTarWithReader. cbv zeta. intros H Hes Hreg Hlater. rewrite Hes in H.
  apply extractEntries_app_Ok in H as (fs1 & Hc1 & H).
  apply extractEntries_cons_Ok in H as (fs2 & Hc2 & Hrest & _ & Hfile).
  specialize (Hfile Hreg). rewrite (targetKey_cwd _ fs1 fs) in Hfile by done.
  exists (syscallMode (FileMode_of_int64 (Mode (header e)))).
  split; [|split].
  - eapply extractEntries_keeps; [exact Hrest | exact Hfile |].
    intros e' He' Hreg'. rewrite (targetKey_cwd _ fs2 fs) by congruence.
    by apply Hlater.
  - cbn [permBits]. apply syscallMode_permBits.
  - apply syscallMode_permission_only.
Qed.

(** A file tree is pulled on a host with umask 077: the directory entry,
    the executable and a text file. *)
Lemma extractTar_keeps_permissions_witness :
  let d := mkEntry (mkHeader "bin/" 0x1ed TypeDir) [] None in
  let e := mkEntry (mkHeader "bin/entrypoint" 0x1ed TypeReg) [x7f; x45; x4c; x46] None in
  let y := mkEntry (mkHeader "thin.provider.yaml" 0x1a4 TypeReg) [x61; x3a; x20; x31] None in
  let c := mkCodecs (λ _, inl "gzip: invalid header") (λ _, mkStream [d; e; y] None) in
  let fs := mkFS {[ ["r"] := Dir 0x1ed ]} [] 0x3f in
  ∃ fs', extractTarWithReader c (bytes_NewReader []) "/r" fs = Ok fs' ∧
    lookupNode fs' ["r"; "bin"; "entrypoint"] = Some (File 0x1ed [x7f; x45; x4c; x46]).
Proof.
  intros d e y c fs.
  destruct (extractTarWithReader c (bytes_NewReader []) "/r" fs) as [fs'|msg] eqn:E;
    [|vm_compute in E; discriminate].
  exists fs'. split; [reflexivity|].
  destruct (extractTar_keeps_permissions c (bytes_NewReader []) "/r" fs fs' [d] e [y]
              E eq_refl eq_refl) as (mode & Hl & _ & Hm).
  - intros e' He' _. apply list_elem_of_In in He'. destruct He' as [<-|[]].
    vm_compute. discriminate.
  - rewrite Hm in Hl by (cbn; lia). exact Hl.
Defined.

(** ** The extractor's dispatch *)

Lemma openTruncWrite_Ok_not_dir name data perm fs fs' m :
  openTruncWrite name data perm fs = Ok fs' →
  lookupNode fs (resolve fs name) ≠ Some (Dir m).
Proof.
  unfold openTruncWrite.
  destruct (lookupNode fs (removelast (resolve fs name))) as [[m0 c0|m0]|]; [done| |done].
  destruct (lookupNode fs (resolve fs name)) as [[m1 c1|m1]|]; done.
Qed.

Lemma mkdir_then_write_Ok dirPath filePath data fs fs' :
  os_MkdirAll dirPath 0x1ed fs >>= os_WriteFile filePath data 0x1ed = Ok fs' →
  ∃ m m', lookupNode fs' (resolve fs filePath) = Some (File m data) ∧
          lookupNode fs' (resolve fs dirPath) = Some (Dir m').
Proof.
  intros H. apply bind_Ok in H as (fs1 & Hmk & Hwr).
  apply os_MkdirAll_Ok in Hmk as (Hc & _ & (m' & Hdir)).
  unfold os_WriteFile in Hwr.
  pose proof (openTruncWrite_Ok_not_dir _ _ _ _ _ m' Hwr) as Hnd.
  apply openTruncWrite_Ok in Hwr as (_ & (m & Hfile) & Hkeep).
  rewrite (resolve_cwd fs1 fs) in Hfile, Hkeep, Hnd by done.
  exists m, m'. split; [done|]. rewrite Hkeep; [done|]. intros Heq.
  rewrite Heq in Hdir. done.
Qed.

Lemma printable_not_gzip b rest :
  printable b = true → bytes_HasPrefix (b :: rest) gzipMagic = false.
Proof.
  intros Hp. cbn [bytes_HasPrefix gzipMagic].
  destruct (decide (b = x1f)) as [->|Hne]; [done|].
  by rewrite bool_decide_eq_false_2.
Qed.

Lemma short_not_tar data : (length data < 512)%nat → isTar data = false.
Proof. intros H. unfold isTar. by rewrite decide_True. Qed.

Lemma extractLayerContent_manifest_branch c layerData targetDir fs b rest :
  layerData = b :: rest → printable b = true → isTar layerData = false →
  Z.of_nat (length layerData) ≤ 4000000 →
  extractLayerContent c layerData targetDir fs =
    os_WriteFile (filepath_Join [targetDir; "thin.provider.yaml"]) layerData 0x1a4 fs.
Proof.
  intros Hd Hp Ht Hlen. unfold extractLayerContent.
  rewrite Ht. rewrite Hd at 1. rewrite (printable_not_gzip _ _ Hp).
  rewrite (proj2 (Z.ltb_ge _ _)) by done. rewrite Hd at 1. by rewrite Hp.
Qed.

Lemma extractLayerContent_binary_branch c layerData targetDir fs :
  bytes_HasPrefix layerData gzipMagic = false → isTar layerData = false →
  4000000 < Z.of_nat (length layerData) →
  extractLayerContent c layerData targetDir fs =
    os_MkdirAll (filepath_Dir (filepath_Join [targetDir; "bin"; "entrypoint"])) 0x1ed fs
      >>= os_WriteFile (filepath_Join [targetDir; "bin"; "entrypoint"]) layerData 0x1ed.
Proof.
  intros Hg Ht Hlen. unfold extractLayerContent.
  rewrite Hg, Ht. by rewrite (proj2 (Z.ltb_lt _ _)).
Qed.

(** C4: the extractor sniffs in a fixed order.  Gzip magic: the payload is
    handed to the gzip reader and what comes out is extracted as a tar
    stream.  Else the tar signature: the entries are extracted.  Else more
    than 4000000 bytes (so any payload of 5000000 bytes that is neither):
    the parent directories are made and the payload is written as it is
    to [bin/entrypoint].  Else a printable first byte (so any payload of
    200 bytes starting with one, which can be neither gzip nor tar): the
    payload is written as it is to [thin.provider.yaml].  Else nothing is
    written and the call succeeds. *)
Theorem extractLayerContent_dispatch c layerData targetDir fs :
  let binPath := filepath_Join [targetDir; "bin"; "entrypoint"] in
  let manifestPath := filepath_Join [targetDir; "thin.provider.yaml"] in
  let writeBinary :=
    os_MkdirAll (filepath_Dir binPath) 0x1ed fs >>= os_WriteFile binPath layerData 0x1ed in
  let writeManifest := os_WriteFile manifestPath layerData 0x1a4 fs in
  (bytes_HasPrefix layerData gzipMagic = true →
     extractLayerContent c layerData targetDir fs =
       match gzip_NewReader c layerData with
       | inl e => Error ("failed to create gzip reader: " +:+ e)
       | inr gz => extractTarWithReader c gz targetDir fs
       end) ∧
  (bytes_HasPrefix layerData gzipMagic = false → isTar layerData = true →
     extractLayerContent c layerData targetDir fs =
       extractTarWithReader c (bytes_NewReader layerData) targetDir fs) ∧
  (bytes_HasPrefix layerData gzipMagic = false → isTar layerData = false →
   4000000 < Z.of_nat (length layerData) →
     extractLayerContent c layerData targetDir fs = writeBinary ∧
     ∀ fs', writeBinary = Ok fs' →
       ∃ m m', lookupNode fs' (resolve fs binPath) = Some (File m layerData) ∧
               lookupNode fs' (resolve fs (filepath_Dir binPath)) = Some (Dir m')) ∧
  (isTar layerData = false → Z.of_nat (length layerData) ≤ 4000000 →
   ∀ b rest, layerData = b :: rest → printable b = true →
     extractLayerContent c layerData targetDir fs = writeManifest ∧
     ∀ fs', writeManifest = Ok fs' →
       ∃ m, lookupNode fs' (resolve fs manifestPath) = Some (File m layerData)) ∧
  (bytes_HasPrefix layerData gzipMagic = false → isTar layerData = false →
   Z.of_nat (length layerData) ≤ 4000000 →
   (layerData = [] ∨ ∃ b rest, layerData = b :: rest ∧ printable b = false) →
     extractLayerContent c layerData targetDir fs = Ok fs) ∧
  (Z.of_nat (length layerData) = 5000000 →
   bytes_HasPrefix layerData gzipMagic = false → isTar layerData = false →
     extractLayerContent c layerData targetDir fs = writeBinary) ∧
  (length layerData = 200%nat → ∀ b rest, layerData = b :: rest → printable b = true →
     extractLayerContent c layerData targetDir fs = writeManifest).
Proof.
  intros binPath manifestPath writeBinary writeManifest.
  pose proof (extractLayerContent_manifest_branch c layerData targetDir fs) as Hmanifest.
  pose proof (extractLayerContent_binary_branch c layerData targetDir fs) as Hbinary.
  split; [|split; [|split; [|split; [|split; [|split]]]]].
  - intros Hg. unfold extractLayerContent. rewrite Hg. done.
  - intros Hg Ht. unfold extractLayerContent. rewrite Hg, Ht. done.
  - intros Hg Ht Hlen. split; [by apply Hbinary|].
    intros fs' H. by apply mkdir_then_write_Ok.
  - intros Ht Hlen b rest Hd Hp. split; [by eapply Hmanifest|].
    intros fs' H. unfold writeManifest, os_WriteFile in H.
    apply openTruncWrite_Ok in H as (_ & Hfile & _). done.
  - intros Hg Ht Hlen Hcase. unfold extractLayerContent.
    rewrite Hg, Ht. rewrite (proj2 (Z.ltb_ge _ _)) by done.
    destruct Hcase as [->|(b & rest & -> & ->)]; done.
  - intros Hlen Hg Ht. apply Hbinary; [done | done | lia].
  - intros Hlen b rest Hd Hp. eapply Hmanifest; [done | done | |lia].
    apply short_not_tar. lia.
Qed.

(** A text payload of 200 bytes lands in [thin.provider.yaml]. *)
Lemma extractLayerContent_dispatch_witness :
  let c := mkCodecs (λ _, inl "gzip: invalid header") (λ _, mkStream [] None) in
  let fs := mkFS {[ ["r"] := Dir 0x1ed ]} [] 0x12 in
  let text := replicate 200 x6e in
  extractLayerContent c text "/r" fs =
    os_WriteFile (filepath_Join ["/r"; "thin.provider.yaml"]) text 0x1a4 fs ∧
  ∃ fs', extractLayerContent c text "/r" fs = Ok fs' ∧
         lookupNode fs' ["r"; "thin.provider.yaml"] = Some (File 0x1a4 text).
Proof.
  intros c fs text.
  pose proof (extractLayerContent_dispatch c text "/r" fs) as (_ & _ & _ & _ & _ & _ & H).
  split.
  - apply (H eq_refl x6e (replicate 199 x6e)); reflexivity.
  - eexists. split; vm_compute; reflexivity.
Defined.

Example extractLayerContent_unrecognised :
  let c := mkCodecs (λ _, inl "gzip: invalid header") (λ _, mkStream [] None) in
  let fs := mkFS {[ ["r"] := Dir 0x1ed ]} [] 0x12 in
  extractLayerContent c [x00; x01; x02] "/r" fs = Ok fs ∧
  extractLayerContent c [] "/r" fs = Ok fs.
Proof. split; reflexivity. Qed.



(** ** The argument splitter *)

Lemma parseArgs_step_nonempty st ch :
  Forall (λ a, a ≠ []) (args st) → Forall (λ a, a ≠ []) (args (parseArgs_step st ch)).
Proof.
  intros H. unfold parseArgs_step.
  repeat (case_match; cbn [args]); try done.
  apply Forall_app. split; [done|]. constructor; [|constructor]. congruence.
Qed.

Lemma parseArgs_loop_nonempty input st :
  Forall (λ a, a ≠ []) (args st) →
  Forall (λ a, a ≠ []) (args (fold_left parseArgs_step input st)).
Proof.
  revert st. induction input as [|ch input IH]; intros st H; [done|].
  cbn [fold_left]. apply IH. by apply parseArgs_step_nonempty.
Qed.

(** X1: [parseArgs] never returns an empty argument; in particular an
    argument written as an empty pair of quotes disappears. *)
Theorem parseArgs_no_empty_argument argString :
  Forall (λ a, a ≠ []) (parseArgs argString).
Proof.
  unfold parseArgs.
  pose proof (parseArgs_loop_nonempty argString (mkArgState [] [] false 0)) as H.
  cbn [args] in H. specialize (H (Forall_nil_2 _)).
  destruct (current (fold_left parseArgs_step argString _)) eqn:E; [done|].
  apply Forall_app. split; [done|]. constructor; [done | constructor].
Qed.

Example parseArgs_empty_quotes :
  parseArgs [97; 32; 34; 34; 32; 98] = [[97]; [98]].
Proof. reflexivity. Qed.





Lemma parseArgs_inside_quotes s q st :
  q ∉ s → inQuote st = true → quoteChar st = q →
  fold_left parseArgs_step s st = mkArgState (args st) (current st ++ s) true q.
Proof.
  revert st. induction s as [|ch s IH]; intros [a c iq qc] Hq Hin Hqc;
    cbn in Hin, Hqc; subst iq qc.
  - cbn. by rewrite app_nil_r.
  - apply not_elem_of_cons in Hq as [Hne Hq].
    cbn [fold_left]. unfold parseArgs_step at 2. cbn [inQuote args current quoteChar].
    rewrite !andb_false_r. rewrite (proj2 (Z.eqb_neq ch q)) by done. cbn [andb negb].
    rewrite IH by done. cbn [args current]. by rewrite <- app_assoc.
Qed.

(** X3: inside a pair of quotes everything but the quote itself is kept,
    spaces and the other kind of quote included, and a quote that is never
    closed is not an error: the rest of the string is one argument. *)
Theorem parseArgs_quoted s q :
  q = doubleQuote ∨ q = singleQuote → q ∉ s → s ≠ [] →
  parseArgs (q :: s ++ [q]) = [s] ∧ parseArgs (q :: s) = [s].
Proof.
  intros Hq Hs Hne.
  assert (parseArgs_step (mkArgState [] [] false 0) q = mkArgState [] [] true q) as Hopen.
  { destruct Hq as [-> | ->]; reflexivity. }
  unfold parseArgs. cbn [fold_left]. rewrite Hopen. split.
  - rewrite fold_left_app, (parseArgs_inside_quotes s q) by done.
    cbn [fold_left args current app]. unfold parseArgs_step.
    cbn [inQuote quoteChar args current]. rewrite andb_false_r, Z.eqb_refl.
    cbn [andb current args]. by destruct s.
  - rewrite (parseArgs_inside_quotes s q) by done. cbn [args current app]. by destruct s.
Qed.

Lemma parseArgs_quoted_witness :
  parseArgs (34 :: [97; 32; 39; 98] ++ [34]) = [[97; 32; 39; 98]] ∧
  parseArgs (34 :: [97; 32; 39; 98]) = [[97; 32; 39; 98]].
Proof.
  apply (parseArgs_quoted [97; 32; 39; 98] 34).
  - by left.
  - intros H. apply list_elem_of_In in H. cbn in H. lia.
  - discriminate.
Defined.

(** ** Provider references *)

Lemma string_append_assoc (a b c : string) : (a +:+ b) +:+ c = a +:+ (b +:+ c).
Proof.
  induction a as [|x a IH]; [done|].
  change (String x ((a +:+ b) +:+ c) = String x (a +:+ (b +:+ c))). by rewrite IH.
Qed.

Lemma hasChar_append c a b : hasChar c (a +:+ b) = hasChar c a || hasChar c b.
Proof.
  induction a as [|x a IH]; [done|].
  change (hasChar c (String x (a +:+ b))
          = hasChar c (String x a) || hasChar c b).
  cbn [hasChar]. rewrite IH. by rewrite orb_assoc.
Qed.

Lemma splitOn_not_nil sep s : splitOn sep s ≠ [].
Proof.
  destruct s as [|c s]; [done|]. simpl.
  destruct (Ascii.eqb c sep); [done|]. by destruct (splitOn sep s).
Qed.

Lemma splitOn_no_sep sep s : hasChar sep s = false → splitOn sep s = [s].
Proof.
  induction s as [|c s IH]; [done|]. simpl.
  destruct (Ascii.eqb c sep); [done|]. intros H. by rewrite IH.
Qed.

Lemma splitOn_append sep a b :
  splitOn sep (a +:+ String sep b) = splitOn sep a ++ splitOn sep b.
Proof.
  induction a as [|c a IH].
  - change (splitOn sep (String sep b) = [EmptyString] ++ splitOn sep b).
    cbn [splitOn]. by rewrite Ascii.eqb_refl.
  - change (splitOn sep (String c (a +:+ String sep b))
            = splitOn sep (String c a) ++ splitOn sep b).
    cbn [splitOn]. rewrite IH. destruct (Ascii.eqb c sep); [done|].
    pose proof (splitOn_not_nil sep a) as Hne.
    by destruct (splitOn sep a).
Qed.

Lemma splitOn_one sep s y :
  splitOn sep s = [y] → s = y ∧ hasChar sep y = false.
Proof.
  revert y. induction s as [|c s IH]; intros y; cbn [splitOn].
  - by intros [= <-].
  - destruct (Ascii.eqb c sep) eqn:E.
    + intros [= _ Hs]. by apply splitOn_not_nil in Hs.
    + destruct (splitOn sep s) as [|f fs] eqn:Es; [by apply splitOn_not_nil in Es|].
      intros [= <- ->]. destruct (IH f eq_refl) as [-> Hf].
      cbn [hasChar]. by rewrite E, Hf.
Qed.

(** Two fields: the string is the first, the separator, the second. *)
Lemma splitOn_two sep s x y :
  splitOn sep s = [x; y] →
  s = x +:+ String sep y ∧ hasChar sep x = false ∧ hasChar sep y = false.
Proof.
  revert x. induction s as [|c s IH]; intros x; cbn [splitOn]; [done|].
  destruct (Ascii.eqb c sep) eqn:E.
  - apply Ascii.eqb_eq in E as ->. intros [= <- Hs].
    apply splitOn_one in Hs as [-> Hy]. done.
  - destruct (splitOn sep s) as [|f fs] eqn:Es; [done|].
    intros [= <- ->]. destruct (IH f eq_refl) as (-> & Hf & Hy).
    cbn [hasChar]. by rewrite E, Hf.
Qed.

(** X4: [ParseProviderRef] accepts exactly the strings
    [namespace/name@version] in which the namespace and the name hold
    neither a slash nor an at sign and the version holds no at sign, and
    it returns those three parts; it checks nothing else, so any of the
    parts may be empty and the version may hold slashes. *)
Theorem ParseProviderRef_accepts ref ns name version :
  ParseProviderRef ref = inr (ProviderRef.mk ns name version) ↔
  ref = ns +:+ "/" +:+ name +:+ "@" +:+ version ∧
  hasChar "/" ns = false ∧ hasChar "/" name = false ∧
  hasChar "@" ns = false ∧ hasChar "@" name = false ∧ hasChar "@" version = false.
Proof.
  unfold ParseProviderRef. split.
  - destruct (splitOn "@" ref) as [|p0 [|v [|? ?]]] eqn:Eat; try done.
    destruct (splitOn "/" p0) as [|n0 [|n1 [|? ?]]] eqn:Esl; try done.
    intros [= -> -> ->].
    apply splitOn_two in Eat as (-> & Hp0 & Hv).
    apply splitOn_two in Esl as (-> & Hns & Hname).
    rewrite hasChar_append in Hp0. simpl in Hp0.
    apply orb_false_iff in Hp0 as [Hns' Hname'].
    rewrite string_append_assoc. done.
  - intros (-> & Hns & Hname & Hns' & Hname' & Hv).
    replace (ns +:+ "/" +:+ name +:+ "@" +:+ version)
      with ((ns +:+ String "/" name) +:+ String "@" version)
      by (by rewrite string_append_assoc).
    rewrite splitOn_append.
    rewrite (splitOn_no_sep "@" (ns +:+ String "/" name))
      by (rewrite hasChar_append; simpl; by rewrite Hns', Hname').
    rewrite (splitOn_no_sep "@" version) by done. cbn [app].
    rewrite splitOn_append, !splitOn_no_sep by done. done.
Qed.

Example ParseProviderRef_runs :
  ParseProviderRef "sourceplane/lite@v0.1.2" = inr (ProviderRef.mk "sourceplane" "lite" "v0.1.2") ∧
  ParseProviderRef "/@" = inr (ProviderRef.mk "" "" "") ∧
  ParseProviderRef "lite" = inl "invalid provider reference" ∧
  ParseProviderRef "a/b/c@v1" = inl "invalid provider reference" ∧
  ParseProviderRef "a/b@v1@x" = inl "invalid provider reference".
Proof. repeat split; reflexivity. Qed.

(** ** Reference normalisation and the tag *)

Lemma contains_occurs s substr : contains s substr = true ↔ strings_Contains s substr.
Proof.
  unfold contains, strings_Contains. rewrite contains_loop_true. split.
  - intros (k & Hk & Hs). exists k. apply sliceEq_occursAt; [|done].
    apply loopCount_lt. lia.
  - intros (k & Hk). pose proof (occursAt_in_range _ _ _ Hk) as Hr.
    exists k. split; [apply loopCount_lt in Hr; lia|]. by apply sliceEq_occursAt.
Qed.

Lemma lastIndexOf_last s substr : strings_LastIndex s substr (lastIndexOf s substr).
Proof.
  unfold lastIndexOf, strings_LastIndex, strings_Contains.
  destruct (lastIndexOf_loop_spec s substr 0 (loopCount s substr) (-1))
    as [[Hr Hnone] | (k & Hr & Hk & Hs & Hmax)].
  - left. split; [done|]. intros (k & Hk).
    pose proof (occursAt_in_range _ _ _ Hk) as Hrange.
    apply sliceEq_occursAt in Hk; [|done].
    rewrite Hnone in Hk; [done|]. apply loopCount_lt in Hrange. lia.
  - right. exists k. split; [done|].
    assert (k + String.length substr ≤ String.length s)%nat as Hrange
      by (apply loopCount_lt; lia).
    split; [by apply sliceEq_occursAt|].
    intros j Hj. pose proof (occursAt_in_range _ _ _ Hj) as Hrj.
    apply Hmax; [apply loopCount_lt in Hrj; lia | by apply sliceEq_occursAt].
Qed.

Lemma hasChar_split c s :
  hasChar c s = true → ∃ a b, s = a +:+ String c b ∧ hasChar c b = false.
Proof.
  induction s as [|x s IH]; [done|]. cbn [hasChar].
  destruct (hasChar c s) eqn:Hs.
  - intros _. destruct (IH eq_refl) as (a & b & -> & Hb). by exists (String x a), b.
  - rewrite orb_false_r. intros ->%Ascii.eqb_eq. by exists EmptyString, s.
Qed.

Lemma contains_char c s : contains s (String c EmptyString) = hasChar c s.
Proof.
  apply eq_true_iff_eq. rewrite contains_occurs. split.
  - intros (i & pre & post & -> & _). rewrite hasChar_append.
    change (String c "" +:+ post) with (String c post).
    cbn [hasChar]. rewrite Ascii.eqb_refl. by rewrite orb_true_r.
  - intros (a & b & -> & _)%hasChar_split. exists (String.length a), a, b. done.
Qed.

(** X5: after the normalisation at the head of [PullProviderOCI] the
    reference holds a slash and a colon, and normalising it again changes
    nothing. *)
Theorem normalizeRef_idempotent imageRef :
  contains (normalizeRef imageRef) "/" = true ∧
  contains (normalizeRef imageRef) ":" = true ∧
  normalizeRef (normalizeRef imageRef) = normalizeRef imageRef.
Proof.
  assert (contains (normalizeRef imageRef) "/" = true ∧
          contains (normalizeRef imageRef) ":" = true) as [Hs Hc].
  { unfold normalizeRef. rewrite !contains_char.
    set (ref := if negb (hasChar "/" imageRef) then _ else _).
    assert (hasChar "/" ref = true) as Href.
    { unfold ref. destruct (hasChar "/" imageRef) eqn:E; [done|].
      cbn [negb]. by rewrite hasChar_append. }
    destruct (hasChar ":" ref) eqn:E; cbn [negb]; [done|].
    rewrite !hasChar_append, Href. cbn. by rewrite orb_true_r. }
  split; [done|]. split; [done|].
  unfold normalizeRef at 1. rewrite Hs. cbn [negb]. by rewrite Hc.
Qed.

Example normalizeRef_runs :
  normalizeRef "lite" = "docker.io/lite:latest" ∧
  normalizeRef "ghcr.io/sourceplane/lite-ci" = "ghcr.io/sourceplane/lite-ci:latest" ∧
  normalizeRef "localhost:5000/lite" = "localhost:5000/lite" ∧
  normalizeRef "lite:v1" = "docker.io/lite:v1".
Proof. repeat split; reflexivity. Qed.

Lemma append_split_after (a x pre y : string) :
  a +:+ x = pre +:+ y → (String.length a ≤ String.length pre)%nat →
  ∃ m, pre = a +:+ m ∧ x = m +:+ y.
Proof.
  revert pre. induction a as [|c a IH]; intros pre H Hlen.
  - by exists pre.
  - destruct pre as [|c' pre]; [cbn in Hlen; lia|].
    change (String c (a +:+ x) = String c' (pre +:+ y)) in H.
    injection H as <- H. cbn in Hlen.
    destruct (IH pre H) as (m & -> & ->); [lia|]. by exists m.
Qed.

Lemma dropString_append a b : dropString (String.length a) (a +:+ b) = b.
Proof. induction a as [|c a IH]; [done|]. exact IH. Qed.

Lemma lastIndexOf_colon a b :
  hasChar ":" b = false → lastIndexOf (a +:+ ":" +:+ b) ":" = Z.of_nat (String.length a).
Proof.
  intros Hb.
  assert (occursAt (a +:+ ":" +:+ b) ":" (String.length a)) as Hocc by (by exists a, b).
  destruct (lastIndexOf_last (a +:+ ":" +:+ b) ":")
    as [[_ Hno] | (i & -> & (pre & post & Hs & Hi) & Hmax)].
  - exfalso. apply Hno. by exists (String.length a).
  - pose proof (Hmax _ Hocc) as Hle. f_equal.
    destruct (decide (i = String.length a)) as [|Hne]; [done|]. exfalso.
    apply append_split_after in Hs as (m & -> & Hm); [|lia].
    rewrite string_length_append in Hi.
    destruct m as [|c m]; [cbn in Hi; lia|].
    change (String ":" b = String c (m +:+ ":" +:+ post)) in Hm.
    injection Hm as <- ->. rewrite hasChar_append in Hb.
    change (":" +:+ post) with (String ":" post) in Hb. cbn [hasChar] in Hb.
    rewrite Ascii.eqb_refl in Hb. by rewrite orb_true_r in Hb.
Qed.

Lemma dropString_after_colon a b :
  dropString (Z.to_nat (Z.of_nat (String.length a) + 1)) (a +:+ ":" +:+ b) = b.
Proof.
  replace (Z.to_nat (Z.of_nat (String.length a) + 1))
    with (String.length (a +:+ ":")) by (rewrite string_length_append; cbn; lia).
  rewrite <- (dropString_append (a +:+ ":") b) at 2.
  by rewrite string_append_assoc.
Qed.

(** X6: the tag handed to the registry is whatever follows the last colon
    of the reference.  When the only colon is the one before a port
    number, the port and the repository path are taken for the tag. *)
Theorem resolveTag_is_suffix_after_last_colon a b :
  hasChar ":" b = false → resolveTag (a +:+ ":" +:+ b) = b.
Proof.
  intros Hb. unfold resolveTag. rewrite lastIndexOf_colon by done.
  rewrite (proj2 (Z.leb_le _ _)) by lia.
  apply dropString_after_colon.
Qed.

Lemma resolveTag_is_suffix_after_last_colon_witness :
  resolveTag ("localhost" +:+ ":" +:+ "5000/lite") = "5000/lite".
Proof. apply resolveTag_is_suffix_after_last_colon. reflexivity. Defined.

(** X7: a normalised reference always has a colon, so the default tag
    ["latest"] set before the search is never the one resolved: the tag is
    the part of the normalised reference after its last colon, and holds
    no colon. *)
Theorem resolveTag_of_normalized imageRef :
  ∃ a, normalizeRef imageRef = a +:+ ":" +:+ resolveTag (normalizeRef imageRef) ∧
       hasChar ":" (resolveTag (normalizeRef imageRef)) = false.
Proof.
  assert (hasChar ":" (normalizeRef imageRef) = true) as Hc.
  { unfold normalizeRef.
    set (ref := if negb (contains imageRef "/") then _ else _).
    rewrite contains_char. destruct (hasChar ":" ref) eqn:E; cbn [negb]; [done|].
    rewrite hasChar_append. cbn. by rewrite orb_true_r. }
  apply hasChar_split in Hc as (a & b & Hs & Hb).
  change (a +:+ String ":" b) with (a +:+ ":" +:+ b) in Hs.
  assert (resolveTag (a +:+ ":" +:+ b) = b) as Htag.
  { unfold resolveTag. rewrite lastIndexOf_colon by done.
    rewrite (proj2 (Z.leb_le _ _)) by lia. apply dropString_after_colon. }
  exists a. rewrite Hs at 2 3. by rewrite Htag.
Qed.

Example resolveTag_runs :
  resolveTag (normalizeRef "ghcr.io/sourceplane/lite-ci:v0.1.2") = "v0.1.2" ∧
  resolveTag (normalizeRef "lite") = "latest" ∧
  resolveTag (normalizeRef "lite@sha256:abcd") = "abcd".
Proof. repeat split; reflexivity. Qed.

(** ** The life cycle of the interactive handler *)

Lemma substring_prefix_length n s :
  (n ≤ String.length s)%nat → String.length (substring 0 n s) = n.
Proof.
  revert s. induction n as [|n IH]; intros s Hn.
  - by destruct s.
  - destruct s as [|c s]; [cbn in Hn; lia|]. cbn. f_equal. apply IH. cbn in Hn. lia.
Qed.

Lemma digestStr_length desc dg : digestStr desc = Some dg → String.length dg = 16%nat.
Proof.
  unfold digestStr. case_decide; [done|]. intros [= <-].
  apply substring_prefix_length. lia.
Qed.

Lemma setStatus_currentNode h dg status : currentNode (setStatus h dg status) = currentNode h.
Proof. unfold setStatus. by destruct (progress h !! dg). Qed.

Lemma setStatus_dom h dg status : dom (progress (setStatus h dg status)) = dom (progress h).
Proof.
  unfold setStatus. destruct (progress h !! dg) as [p|] eqn:E; [|done].
  cbn [progress]. apply dom_insert_lookup_L. eauto.
Qed.

Lemma TTY_UpdateProgress_dom h dg n :
  dom (progress (TTY_UpdateProgress h dg n)) = dom (progress h) ∧
  currentNode (TTY_UpdateProgress h dg n) = currentNode h.
Proof.
  unfold TTY_UpdateProgress. destruct (progress h !! dg) as [p|] eqn:E; [|done].
  cbn [progress currentNode]. split; [|done]. apply dom_insert_lookup_L. eauto.
Qed.

(** A call other than [OnNodeDownloading] creates no entry and never makes
    a node current. *)
Lemma TTY_handle_other h call now h' :
  isOnNodeDownloading call = false → TTY_handle h call now = Some h' →
  dom (progress h') = dom (progress h) ∧
  (currentNode h' = "" ∨ currentNode h' = currentNode h).
Proof.
  destruct call as [desc|desc|desc|desc|desc|dg n]; cbn [isOnNodeDownloading TTY_handle];
    [done| | | | |]; intros _;
    try (unfold TTY_OnNodeDownloaded, TTY_OnNodeProcessing, TTY_OnNodeRestored,
           TTY_OnNodeSkipped;
         destruct (digestStr desc) as [dg|]; [|done]; intros [= <-];
         cbn [progress currentNode];
         rewrite ?setStatus_dom, ?setStatus_currentNode; by auto).
  intros [= <-]. destruct (TTY_UpdateProgress_dom h dg n) as [-> ->]. auto.
Qed.

(** X9: once a layer has been restored the status line stays off until
    the next download starts, whichever layer was restored: no other call
    makes a node current, so a layer that is still downloading on the
    other worker is no longer drawn. *)
Theorem render_off_after_restored h desc calls h1 h2 :
  TTY_OnNodeRestored h desc = Some h1 →
  forallb (λ c, negb (isOnNodeDownloading (fst c))) calls = true →
  TTY_run h1 calls = Some h2 →
  render h2 = None.
Proof.
  intros Hr Hcalls Hrun.
  assert (currentNode h1 = "") as Hcur.
  { unfold TTY_OnNodeRestored in Hr. destruct (digestStr desc); [|done].
    by injection Hr as <-. }
  clear Hr. revert h1 Hcur Hrun.
  induction calls as [|[call now] rest IH]; intros h1 Hcur Hrun.
  - cbn in Hrun. injection Hrun as <-. unfold render. by rewrite decide_True.
  - cbn [forallb fst] in Hcalls. apply andb_true_iff in Hcalls as [Hc Hrest].
    apply negb_true_iff in Hc.
    cbn [TTY_run] in Hrun. destruct (TTY_handle h1 call now) as [h'|] eqn:Eh; [|done].
    destruct (TTY_handle_other _ _ _ _ Hc Eh) as [_ [Hcur'|Hcur']];
      apply (IH Hrest h'); congruence.
Qed.

Lemma render_off_after_restored_witness :
  let big := mkDescriptor "application/vnd.sourceplane.bin.darwin-arm64"
               "sha256:3433ea3ed79fcd2b5a59aa507680af860d5387a6" 4613734 in
  let small := mkDescriptor assetsMediaType
                 "sha256:7a2441f8faaca814f509552061d7583db76fdbc4" 3082 in
  let h0 := default NewTTYStatusHandler
              (TTY_run NewTTYStatusHandler
                 [(OnNodeDownloading small, 0); (OnNodeDownloading big, 1)]) in
  let h1 := default NewTTYStatusHandler (TTY_OnNodeRestored h0 small) in
  let h2 := default NewTTYStatusHandler
              (TTY_run h1 [(UpdateProgress "sha256:3433ea3ed" 4096, 5)]) in
  is_Some (render h0) ∧ render h2 = None.
Proof.
  intros big small h0 h1 h2. split; [vm_compute; eauto|].
  apply (render_off_after_restored h0 small
           [(UpdateProgress "sha256:3433ea3ed" 4096, 5)] h1 h2);
    vm_compute; reflexivity.
Defined.





(** A layer declared with size 0: the quotient is 0/0, and the count for
    [strings.Repeat] is the conversion of a NaN. *)
Example render_empty_layer :
  let empty := mkDescriptor emptyMediaType
                 "sha256:44136fa355b3678a1146ad16f7e8649e94fb4fc2" 0 in
  let h1 := default NewTTYStatusHandler (TTY_OnNodeDownloading NewTTYStatusHandler empty 0) in
  ∃ g, render h1 = Some g ∧ PrimFloat.is_nan (fraction g) = true ∧ repeatCounts g = None.
Proof. intros empty h1. eexists. split; [reflexivity|]. split; reflexivity. Qed.

Lemma TTY_handle_keys h call now h' :
  TTY_handle h call now = Some h' →
  (∀ k, k ∈ dom (progress h) → String.length k = 16%nat) →
  ∀ k, k ∈ dom (progress h') → String.length k = 16%nat.
Proof.
  intros Hh Hinv.
  destruct (isOnNodeDownloading call) eqn:Ec.
  - destruct call as [desc| | | | |]; try done. cbn [TTY_handle] in Hh.
    unfold TTY_OnNodeDownloading in Hh.
    destruct (digestStr desc) as [dg|] eqn:Ed; [|done]. injection Hh as <-.
    cbn [progress]. intros k Hk. rewrite dom_insert_L in Hk.
    apply elem_of_union in Hk as [->%elem_of_singleton|Hk]; [|by apply Hinv].
    by apply digestStr_length in Ed.
  - destruct (TTY_handle_other _ _ _ _ Ec Hh) as [-> _]. done.
Qed.

Lemma TTY_run_keys calls h h' :
  TTY_run h calls = Some h' →
  (∀ k, k ∈ dom (progress h) → String.length k = 16%nat) →
  ∀ k, k ∈ dom (progress h') → String.length k = 16%nat.
Proof.
  revert h. induction calls as [|[call now] rest IH]; intros h Hrun Hinv.
  - cbn in Hrun. by injection Hrun as <-.
  - cbn [TTY_run] in Hrun. destruct (TTY_handle h call now) as [h1|] eqn:Eh; [|done].
    apply (IH h1); [done|]. by eapply TTY_handle_keys.
Qed.

(** X11: every entry of the progress table is keyed by a digest cut to 16
    characters, so a byte-progress update addressed by a digest of any other
    length (the full digest of a layer, say) is dropped without effect. *)
Theorem UpdateProgress_needs_short_digest calls h dg n :
  TTY_run NewTTYStatusHandler calls = Some h →
  String.length dg ≠ 16%nat →
  TTY_UpdateProgress h dg n = h.
Proof.
  intros Hrun Hlen.
  assert (∀ k, k ∈ dom (progress h) → String.length k = 16%nat) as Hkeys.
  { apply (TTY_run_keys calls NewTTYStatusHandler); [done|].
    intros k Hk. cbn in Hk. by apply not_elem_of_empty in Hk. }
  unfold TTY_UpdateProgress.
  destruct (progress h !! dg) as [p|] eqn:E; [|done].
  exfalso. apply Hlen, Hkeys. apply elem_of_dom. eauto.
Qed.

Lemma UpdateProgress_needs_short_digest_witness :
  let big := mkDescriptor "application/vnd.sourceplane.bin.darwin-arm64"
               "sha256:3433ea3ed79fcd2b5a59aa507680af860d5387a6" 4613734 in
  let h := default NewTTYStatusHandler
             (TTY_run NewTTYStatusHandler [(OnNodeDownloading big, 0)]) in
  TTY_UpdateProgress h (Digest big) 4096 = h ∧
  BytesRead <$> progress (TTY_UpdateProgress h "sha256:3433ea3ed" 4096) !! "sha256:3433ea3ed"
    = Some 4096.
Proof.
  intros big h. split; [|reflexivity].
  apply (UpdateProgress_needs_short_digest [(OnNodeDownloading big, 0)] h (Digest big) 4096);
    [reflexivity | vm_compute; lia].
Defined.

(** ** The provider manifest *)

(** X12: a manifest that [ReadProviderManifest] hands out has passed every
    check of [Validate]; in particular its executable is named, so the
    default name that [executeProviderCommand] keeps for an empty one is
    never used, and [GetProviderMetadata] returns a name and a version
    that are not empty. *)
Theorem ReadProviderManifest_is_valid unmarshal providerDir fs m :
  ReadProviderManifest unmarshal providerDir fs = Manifest m →
  APIVersion m = "thin.io/v1" ∧ Kind m = "Provider" ∧
  MetadataName m ≠ "" ∧ MetadataVersion m ≠ "" ∧
  DistributionType m = "oci" ∧ DistributionRef m ≠ "" ∧
  EntrypointExecutable m ≠ "" ∧ Capabilities m ≠ ∅ ∧
  entrypointName m = EntrypointExecutable m ∧
  GetProviderMetadata unmarshal providerDir fs = inr (MetadataName m, MetadataVersion m).
Proof.
  intros H. unfold GetProviderMetadata. rewrite H.
  unfold ReadProviderManifest in H.
  destruct (os_ReadFile fs _) as [data|]; [|done].
  destruct (unmarshal data) as [e|m']; [done|].
  destruct (Validate m') as [e|] eqn:Ev; [done|]. injection H as ->.
  unfold Validate in Ev.
  repeat (case_decide; [done|]). clear Ev.
  unfold entrypointName. rewrite decide_False by done.
  repeat split; try done; try (by apply dec_stable).
  intros Hc. match goal with H : ¬ (size (Capabilities _) = 0%nat) |- _ => apply H end.
  rewrite Hc. apply size_empty.
Qed.

Lemma ReadProviderManifest_is_valid_witness :
  let m := mkManifest "thin.io/v1" "Provider" "lite" "v0.1.2" "oci"
             "ghcr.io/sourceplane/lite-ci" "entrypoint" "" {[ "plan"; "apply" ]} in
  let fs := mkFS {[ ["r"] := Dir 0x1ed; ["r"; "thin.provider.yaml"] := File 0x1a4 [x61] ]}
              [] 0x12 in
  entrypointName m = "entrypoint" ∧
  GetProviderMetadata (λ _, inr m) "/r" fs = inr ("lite", "v0.1.2").
Proof.
  intros m fs.
  pose proof (ReadProviderManifest_is_valid (λ _, inr m) "/r" fs m) as H.
  destruct H as (_ & _ & _ & _ & _ & _ & _ & _ & He & Hm); [|by split].
  unfold ReadProviderManifest.
  replace (os_ReadFile fs (filepath_Join ["/r"; "thin.provider.yaml"])) with (Some [x61])
    by (by vm_compute).
  assert (Validate m = None) as ->; [|done].
  vm_compute. reflexivity.
Defined.

Example Validate_runs :
  Validate (mkManifest "" "Provider" "lite" "v1" "oci" "r" "e" "" {[ "plan" ]})
    = Some "manifest missing required field: apiVersion" ∧
  Validate (mkManifest "thin.io/v2" "Provider" "lite" "v1" "oci" "r" "e" "" {[ "plan" ]})
    = Some "unsupported apiVersion: thin.io/v2 (expected: thin.io/v1)" ∧
  Validate (mkManifest "thin.io/v1" "Provider" "lite" "v1" "oci" "r" "e" "" ∅)
    = Some "manifest must define at least one capability".
Proof. repeat split; vm_compute; reflexivity. Qed.

(** ** The binary of the platform *)


Lemma os_ReadFile_of_lookup fs fs' p m content :
  cwd fs' = cwd fs → lookupNode fs' (resolve fs p) = Some (File m content) →
  os_ReadFile fs' p = Some content.
Proof.
  intros Hc Hn. unfold os_ReadFile. rewrite (resolve_cwd fs' fs) by done. by rewrite Hn.
Qed.


(** X13: the manifest the extractor writes is the manifest that is read
    back: after a text payload has been extracted into a directory,
    reading [thin.provider.yaml] of that directory yields the payload
    byte for byte, and [ReadProviderManifest] parses and validates exactly
    those bytes. *)
Theorem extracted_manifest_is_read_back c unmarshal layerData b rest targetDir fs fs' :
  layerData = b :: rest → printable b = true → isTar layerData = false →
  Z.of_nat (length layerData) ≤ 4000000 →
  extractLayerContent c layerData targetDir fs = Ok fs' →
  os_ReadFile fs' (filepath_Join [targetDir; "thin.provider.yaml"]) = Some layerData ∧
  ReadProviderManifest unmarshal targetDir fs' =
    match unmarshal layerData with
    | inl e => ManifestError ("failed to parse manifest: " +:+ e)
    | inr m => match Validate m with Some e => ManifestError e | None => Manifest m end
    end.
Proof.
  intros Hd Hp Ht Hlen H.
  rewrite (extractLayerContent_manifest_branch c layerData targetDir fs b rest) in H by done.
  unfold os_WriteFile in H. apply openTruncWrite_Ok in H as (Hc & (m & Hfile) & _).
  assert (os_ReadFile fs' (filepath_Join [targetDir; "thin.provider.yaml"]) = Some layerData)
    as Hread by (by eapply os_ReadFile_of_lookup).
  split; [done|]. unfold ReadProviderManifest. by rewrite Hread.
Qed.

Lemma extracted_manifest_is_read_back_witness :
  let c := mkCodecs (λ _, inl "gzip: invalid header") (λ _, mkStream [] None) in
  let fs := mkFS {[ ["r"] := Dir 0x1ed ]} [] 0x12 in
  let text := replicate 200 x6e in
  let fs' := setNode fs ["r"; "thin.provider.yaml"] (File 0x1a4 text) in
  os_ReadFile fs' (filepath_Join ["/r"; "thin.provider.yaml"]) = Some text ∧
  ReadProviderManifest (λ _, inl "yaml: line 1") "/r" fs' =
    ManifestError "failed to parse manifest: yaml: line 1".
Proof.
  intros c fs text fs'.
  apply (extracted_manifest_is_read_back c (λ _, inl "yaml: line 1") text x6e
           (replicate 199 x6e) "/r" fs fs'); try reflexivity.
  vm_compute. discriminate.
Defined.



Lemma firstExisting_Some fs dir names p :
  firstExisting fs dir names = Some p → os_Stat_ok fs p = true.
Proof.
  induction names as [|name rest IH]; cbn [firstExisting]; [done|].
  destruct (os_Stat_ok fs (filepath_Join (dir ++ [name]))) eqn:E; [|done].
  by intros [= <-].
Qed.

Lemma GetPlatformBinaryPath_exists goos arch providerDir fs p :
  GetPlatformBinaryPath goos arch providerDir fs = inr p → os_Stat_ok fs p = true.
Proof.
  unfold GetPlatformBinaryPath.
  destruct (os_Stat_ok fs (filepath_Join [providerDir; "bin"; "entrypoint"])) eqn:E1;
    [by intros [= <-]|].
  destruct (firstExisting fs [providerDir; "bin"] _) eqn:E2;
    [intros [= <-]; by eapply firstExisting_Some|].
  destruct (os_Stat_ok fs (filepath_Join [providerDir; "bin"; goos; arch; "entrypoint"]))
    eqn:E3; [by intros [= <-]|].
  destruct (firstExisting fs [providerDir; "bin"; goos; arch] _) eqn:E4; [|done].
  intros [= <-]. by eapply firstExisting_Some.
Qed.

(** X15: [GetPlatformBinaryPath] returns the first of its six candidates
    that exists (the flat [bin/entrypoint], [bin/thin], [bin/provider],
    then the same three names under [bin/<os>/<arch>]), and fails exactly
    when none of them exists. *)
Theorem GetPlatformBinaryPath_first_match goos arch providerDir fs :
  match GetPlatformBinaryPath goos arch providerDir fs with
  | inr p =>
      ∃ pre post, binaryCandidates goos arch providerDir = pre ++ p :: post ∧
        Forall (λ q, os_Stat_ok fs q = false) pre ∧ os_Stat_ok fs p = true
  | inl _ => Forall (λ q, os_Stat_ok fs q = false) (binaryCandidates goos arch providerDir)
  end.
Proof.
  unfold GetPlatformBinaryPath, binaryCandidates. cbn [firstExisting app].
  set (c1 := filepath_Join [providerDir; "bin"; "entrypoint"]).
  set (c2 := filepath_Join [providerDir; "bin"; "thin"]).
  set (c3 := filepath_Join [providerDir; "bin"; "provider"]).
  set (c4 := filepath_Join [providerDir; "bin"; goos; arch; "entrypoint"]).
  set (c5 := filepath_Join [providerDir; "bin"; goos; arch; "thin"]).
  set (c6 := filepath_Join [providerDir; "bin"; goos; arch; "provider"]).
  destruct (os_Stat_ok fs c1) eqn:E1.
  { exists [], [c2; c3; c4; c5; c6]. by repeat split. }
  destruct (os_Stat_ok fs c2) eqn:E2.
  { exists [c1], [c3; c4; c5; c6]. repeat split; [|done]. by repeat constructor. }
  destruct (os_Stat_ok fs c3) eqn:E3.
  { exists [c1; c2], [c4; c5; c6]. repeat split; [|done]. by repeat constructor. }
  destruct (os_Stat_ok fs c4) eqn:E4.
  { exists [c1; c2; c3], [c5; c6]. repeat split; [|done]. by repeat constructor. }
  destruct (os_Stat_ok fs c5) eqn:E5.
  { exists [c1; c2; c3; c4], [c6]. repeat split; [|done]. by repeat constructor. }
  destruct (os_Stat_ok fs c6) eqn:E6.
  { exists [c1; c2; c3; c4; c5], []. repeat split; [|done]. by repeat constructor. }
  by repeat constructor.
Qed.

Example GetPlatformBinaryPath_runs :
  let fs := mkFS {[ ["r"] := Dir 0x1ed; ["r"; "bin"] := Dir 0x1ed;
                    ["r"; "bin"; "provider"] := File 0x1a4 [x7f];
                    ["r"; "bin"; "linux"] := Dir 0x1ed;
                    ["r"; "bin"; "linux"; "arm64"] := Dir 0x1ed;
                    ["r"; "bin"; "linux"; "arm64"; "entrypoint"] := File 0x1ed [x7f] ]}
              [] 0x12 in
  GetPlatformBinaryPath "linux" "arm64" "/r" fs = inr "/r/bin/provider" ∧
  GetPlatformBinaryPath "linux" "arm64" "/r/bin/linux" fs =
    inl "binary not found for platform linux/arm64 (checked bin/entrypoint and bin/linux/arm64/entrypoint)".
Proof. split; vm_compute; reflexivity. Qed.

Lemma syscallMode_0755 : syscallMode 0x1ed = 0x1ed.
Proof. reflexivity. Qed.

(** X16: whatever binary [GetPlatformBinaryPath] finds ends the
    installation with permission bits 0755, whatever mode the archive or
    the umask gave it, and nothing else is changed; without a binary the
    installation is left as it is and no error is raised. *)
Theorem finalizeBinary_sets_0755 goos arch providerBaseDir fs :
  match GetPlatformBinaryPath goos arch providerBaseDir fs with
  | inr p =>
      ∃ fs' n, finalizeBinary goos arch providerBaseDir fs = Ok fs' ∧
        lookupNode fs' (resolve fs p) = Some n ∧ permBits n = 0x1ed ∧
        ∀ k, k ≠ resolve fs p → lookupNode fs' k = lookupNode fs k
  | inl _ => finalizeBinary goos arch providerBaseDir fs = Ok fs
  end.
Proof.
  unfold finalizeBinary.
  destruct (GetPlatformBinaryPath goos arch providerBaseDir fs) as [e|p] eqn:E; [done|].
  apply GetPlatformBinaryPath_exists in E. unfold os_Stat_ok in E.
  apply bool_decide_eq_true_1 in E as [n Hn].
  unfold os_Chmod. destruct (resolve fs p) as [|e key] eqn:Ek.
  - exists fs, (Dir 0x1ed). by repeat split.
  - rewrite Hn. destruct n as [m content|m].
    + eexists _, _. split; [done|]. split; [by apply lookupNode_setNode_eq|].
      split; [done|]. intros k Hk. by apply lookupNode_setNode_ne.
    + eexists _, _. split; [done|]. split; [by apply lookupNode_setNode_eq|].
      split; [done|]. intros k Hk. by apply lookupNode_setNode_ne.
Qed.

Example finalizeBinary_runs :
  let fs := mkFS {[ ["r"] := Dir 0x1ed; ["r"; "bin"] := Dir 0x1c0;
                    ["r"; "bin"; "entrypoint"] := File 0x180 [x7f] ]} [] 0x3f in
  ∃ fs', finalizeBinary "linux" "arm64" "/r" fs = Ok fs' ∧
         lookupNode fs' ["r"; "bin"; "entrypoint"] = Some (File 0x1ed [x7f]) ∧
         lookupNode fs' ["r"; "bin"] = Some (Dir 0x1c0).
Proof. eexists. split; [vm_compute; reflexivity|]. split; reflexivity. Qed.

(** ** Running the extractor twice *)


Lemma extractEntries_cons e rest fin targetDir fs :
  extractEntries (e :: rest) fin targetDir fs =
    entryStep e targetDir fs >>= extractEntries rest fin targetDir.
Proof.
  cbn [extractEntries]. unfold entryStep.
  case_decide; [done|]. case_decide; [|done].
  destruct (os_MkdirAll _ _ fs) as [fs1|]; [|done]. cbn [bind].
  destruct (os_Create_Copy _ _ fs1) as [fs2|]; [|done]. cbn [bind].
  by destruct (bodyErr e).
Qed.

Lemma mkdirAll_from_allDirs rest pre perm fs fs' :
  mkdirAll_from pre rest perm fs = Ok fs' → allDirs fs' pre rest.
Proof.
  revert pre fs. induction rest as [|elem rest IH]; intros pre fs; cbn [mkdirAll_from allDirs];
    [done|].
  destruct (lookupNode fs (pre ++ [elem])) as [[m c|m]|] eqn:E; [done| |]; intros H.
  - split; [|by eapply IH].
    exists m. by apply (mkdirAll_from_Ok _ _ _ _ _ H).
  - split; [|by eapply IH].
    eexists. apply (mkdirAll_from_Ok _ _ _ _ _ H).
    apply lookupNode_setNode_eq, snoc_not_nil.
Qed.


Lemma allDirs_mono a b pre rest :
  (∀ k m, lookupNode a k = Some (Dir m) → ∃ m', lookupNode b k = Some (Dir m')) →
  allDirs a pre rest → allDirs b pre rest.
Proof.
  intros Hab. revert pre. induction rest as [|elem rest IH]; intros pre; cbn [allDirs];
    [done|].
  intros [[m Hm] Hrest]. split; [by eapply Hab | by apply IH].
Qed.

Lemma openTruncWrite_Ok_parent name data perm fs fs' :
  openTruncWrite name data perm fs = Ok fs' →
  resolve fs name ≠ [] ∧ umask fs' = umask fs ∧
  ∃ m, lookupNode fs (removelast (resolve fs name)) = Some (Dir m).
Proof.
  unfold openTruncWrite.
  destruct (lookupNode fs (removelast (resolve fs name))) as [[m0 c0|m0]|]; [done| |done].
  destruct (resolve fs name) as [|e key] eqn:E; [done|].
  destruct (lookupNode fs (e :: key)) as [[m1 c1|m1]|]; [|done|];
    intros [= <-]; (split; [done|]); (split; [done|]); by exists m0.
Qed.

Lemma os_MkdirAll_umask p perm fs fs' : os_MkdirAll p perm fs = Ok fs' → umask fs' = umask fs.
Proof.
  unfold os_MkdirAll. generalize (@nil string). generalize (resolve fs p).
  intros rest. revert fs. induction rest as [|elem rest IH]; intros fs pre;
    cbn [mkdirAll_from]; [by intros [= <-]|].
  destruct (lookupNode fs (pre ++ [elem])) as [[m c|m]|]; [done| |]; intros H.
  - by apply IH in H.
  - by apply IH in H.
Qed.

Lemma os_Chmod_umask name mode fs fs' : os_Chmod name mode fs = Ok fs' → umask fs' = umask fs.
Proof.
  unfold os_Chmod. destruct (resolve fs name) as [|e key]; [by intros [= <-]|].
  destruct (lookupNode fs (e :: key)) as [[m c|m]|]; [| |done]; by intros [= <-].
Qed.

(** What one successful turn of the loop leaves behind. *)
Lemma entryStep_Ok e targetDir fs fs1 :
  entryStep e targetDir fs = Ok fs1 →
  let targetPath := filepath_Join [targetDir; Name (header e)] in
  cwd fs1 = cwd fs ∧ umask fs1 = umask fs ∧
  (∀ k m, lookupNode fs k = Some (Dir m) → lookupNode fs1 k = Some (Dir m)) ∧
  (∀ k, isFileNode (lookupNode fs k) → isFileNode (lookupNode fs1 k)) ∧
  (Typeflag (header e) = TypeDir → allDirs fs1 [] (resolve fs targetPath)) ∧
  (Typeflag (header e) = TypeReg →
     bodyErr e = None ∧ resolve fs targetPath ≠ [] ∧
     allDirs fs1 [] (resolve fs (filepath_Dir targetPath)) ∧
     (∃ m, lookupNode fs1 (removelast (resolve fs targetPath)) = Some (Dir m)) ∧
     lookupNode fs1 (resolve fs targetPath) =
       Some (File (syscallMode (FileMode_of_int64 (Mode (header e)))) (body e))).
Proof.
  intros H targetPath. unfold entryStep in H. cbv zeta in H. fold targetPath in H.
  case_decide as Hdir; [|case_decide as Hreg].
  - pose proof (os_MkdirAll_umask _ _ _ _ H) as Hu.
    pose proof (mkdirAll_from_allDirs _ _ _ _ _ H) as Hall.
    apply os_MkdirAll_Ok in H as (Hc & Hkeep & _).
    split; [done|]. split; [done|]. split; [intros k m Hk; by apply Hkeep|].
    split; [intros k (m & c & Hk); exists m, c; by apply Hkeep|].
    split; [done|]. intros Hreg. rewrite Hdir in Hreg. by apply TypeDir_not_TypeReg in Hreg.
  - apply bind_Ok in H as (s1 & Hmk & H). apply bind_Ok in H as (s2 & Hcr & H).
    destruct (bodyErr e) as [err|]; [done|].
    pose proof (os_MkdirAll_umask _ _ _ _ Hmk) as Hu1.
    pose proof (mkdirAll_from_allDirs _ _ _ _ _ Hmk) as Hall.
    apply os_MkdirAll_Ok in Hmk as (Hc1 & Hkeep1 & _).
    unfold os_Create_Copy in Hcr.
    pose proof (openTruncWrite_Ok_parent _ _ _ _ _ Hcr) as (Hne & Hu2 & (mp & Hparent)).
    assert (∀ m, lookupNode s1 (resolve s1 targetPath) ≠ Some (Dir m)) as Hnd
      by (intros m; by eapply openTruncWrite_Ok_not_dir).
    apply openTruncWrite_Ok in Hcr as (Hc2 & (m0 & Hfile) & Hkeep2).
    pose proof (os_Chmod_umask _ _ _ _ H) as Hu3.
    apply os_Chmod_Ok in H as (Hc3 & Hmode & Hkeep3).
    rewrite (resolve_cwd s1 fs) in Hfile, Hkeep2, Hne, Hparent, Hnd by done.
    rewrite (resolve_cwd s2 fs) in Hmode, Hkeep3 by congruence.
    set (key := resolve fs targetPath) in *.
    assert (∀ k m, lookupNode s1 k = Some (Dir m) → lookupNode fs1 k = Some (Dir m)) as Hdirs.
    { intros k m Hk. destruct (decide (k = key)) as [->|Hk']; [by apply Hnd in Hk|].
      by rewrite Hkeep3, Hkeep2. }
    split; [congruence|]. split; [congruence|].
    split; [intros k m Hk; by apply Hdirs, Hkeep1|].
    split.
    { intros k (m & c & Hk). destruct (decide (k = key)) as [->|Hk'].
      - eexists _, _. by apply (Hmode m0).
      - exists m, c. rewrite Hkeep3, Hkeep2 by done. by apply Hkeep1. }
    split; [done|]. intros _. split; [done|]. split; [done|].
    split; [|split; [|by apply (Hmode m0)]].
    + eapply allDirs_mono; [|exact Hall]. intros k m Hk. exists m. by apply Hdirs.
    + exists mp. by apply Hdirs.
  - injection H as <-. repeat split; try done.
Qed.

Section RunTwice.
Context (fin : option string) (targetDir : string).

(** A run that succeeds keeps the directories it meets and makes, and
    leaves a file wherever there was one. *)
Lemma extractEntries_Ok_kinds es fs fs' :
  extractEntries es fin targetDir fs = Ok fs' →
  fin = None ∧ cwd fs' = cwd fs ∧ umask fs' = umask fs ∧
  (∀ k m, lookupNode fs k = Some (Dir m) → lookupNode fs' k = Some (Dir m)) ∧
  (∀ k, isFileNode (lookupNode fs k) → isFileNode (lookupNode fs' k)).
Proof.
  revert fs. induction es as [|e rest IH]; intros fs H.
  - cbn in H. destruct fin; [done|]. by injection H as <-.
  - rewrite extractEntries_cons in H. apply bind_Ok in H as (fs1 & Hstep & Hrest).
    apply entryStep_Ok in Hstep as (Hc & Hu & Hd & Hf & _).
    destruct (IH _ Hrest) as (Hfin & Hc' & Hu' & Hd' & Hf').
    split; [done|]. split; [congruence|]. split; [congruence|].
    split; [intros k m Hk; by apply Hd', Hd | intros k Hk; by apply Hf', Hf].
Qed.








End RunTwice.






(** ** What extraction does to the nodes that were there *)

Lemma mkdirAll_from_origin rest pre perm fs fs' k n :
  mkdirAll_from pre rest perm fs = Ok fs' → lookupNode fs' k = Some n →
  lookupNode fs k = Some n ∨ (lookupNode fs k = None ∧ n = Dir (masked fs perm)).
Proof.
  revert pre fs. induction rest as [|elem rest IH]; intros pre fs; cbn [mkdirAll_from].
  - intros [= <-] Hk. by left.
  - destruct (lookupNode fs (pre ++ [elem])) as [[m c|m]|] eqn:E; [done| |]; intros H Hk.
    + by apply (IH _ _ H).
    + destruct (IH _ _ H Hk) as [Hk1|[Hk1 ->]].
      * destruct (decide (pre ++ [elem] = k)) as [<-|Hne].
        -- rewrite lookupNode_setNode_eq in Hk1 by apply snoc_not_nil.
           injection Hk1 as <-. by right.
        -- rewrite lookupNode_setNode_ne in Hk1 by done. by left.
      * right. split; [|done].
        destruct (decide (pre ++ [elem] = k)) as [<-|Hne].
        -- by rewrite lookupNode_setNode_eq in Hk1 by apply snoc_not_nil.
        -- by rewrite lookupNode_setNode_ne in Hk1.
Qed.

Lemma entryStep_dir_origin e targetDir fs fs1 k m :
  entryStep e targetDir fs = Ok fs1 → lookupNode fs1 k = Some (Dir m) →
  lookupNode fs k = Some (Dir m) ∨ (lookupNode fs k = None ∧ m = masked fs 0x1ed).
Proof.
  unfold entryStep. set (targetPath := filepath_Join [targetDir; Name (header e)]).
  case_decide as Hdir; [|case_decide as Hreg].
  - intros H Hk. destruct (mkdirAll_from_origin _ _ _ _ _ _ _ H Hk) as [?|[? [= ->]]]; auto.
  - intros H Hk. apply bind_Ok in H as (s1 & Hmk & H). apply bind_Ok in H as (s2 & Hcr & H).
    destruct (bodyErr e); [done|].
    unfold os_Create_Copy in Hcr.
    apply openTruncWrite_Ok in Hcr as (Hc2 & (m0 & Hfile) & Hkeep2).
    apply os_Chmod_Ok in H as (Hc3 & Hmode & Hkeep3).
    rewrite (resolve_cwd s2 s1) in Hmode, Hkeep3 by done.
    assert (k ≠ resolve s1 targetPath) as Hne.
    { intros ->. rewrite (Hmode _ _ Hfile) in Hk. done. }
    rewrite Hkeep3, Hkeep2 in Hk by done.
    destruct (mkdirAll_from_origin _ _ _ _ _ _ _ Hmk Hk) as [?|[? [= ->]]]; auto.
  - intros [= <-] Hk. by left.
Qed.

Lemma entryStep_keeps_nodes e targetDir fs fs1 k :
  entryStep e targetDir fs = Ok fs1 → lookupNode fs1 k = None → lookupNode fs k = None.
Proof.
  intros H Hk. apply entryStep_Ok in H as (_ & _ & Hd & Hf & _).
  destruct (lookupNode fs k) as [[m c|m]|] eqn:E; [|by rewrite (Hd _ _ E) in Hk|done].
  destruct (Hf k) as (m' & c' & Hk'); [by eexists _, _|]. congruence.
Qed.

(** X18: the modes of directory entries are not applied.  After a
    successful extraction every directory either was there before, with
    the mode it still has, or has been created with mode 0755 less the
    umask, whatever the archive says. *)
Theorem extractTar_directory_modes c r targetDir fs fs' k m :
  extractTarWithReader c r targetDir fs = Ok fs' →
  lookupNode fs' k = Some (Dir m) →
  lookupNode fs k = Some (Dir m) ∨ (lookupNode fs k = None ∧ m = masked fs 0x1ed).
Proof.
  unfold extractTarWithReader. cbv zeta.
  generalize (entries (tar_NewReader c r)). intros es. revert fs.
  induction es as [|e rest IH]; intros fs H Hk.
  - cbn in H. destruct (finalErr _); [done|]. injection H as <-. by left.
  - rewrite extractEntries_cons in H. apply bind_Ok in H as (fs1 & Hstep & Hrest).
    pose proof (entryStep_Ok _ _ _ _ Hstep) as (_ & Hu & _).
    destruct (IH _ Hrest Hk) as [Hk1|[Hk1 ->]].
    + by eapply entryStep_dir_origin.
    + right. split; [by eapply entryStep_keeps_nodes|].
      unfold masked. by rewrite Hu.
Qed.

Lemma extractTar_directory_modes_witness :
  let d := mkEntry (mkHeader "assets/" 0x1c0 TypeDir) [] None in
  let e := mkEntry (mkHeader "bin/entrypoint" 0x1ed TypeReg) [x7f; x45; x4c; x46] None in
  let c := mkCodecs (λ _, inl "gzip: invalid header") (λ _, mkStream [d; e] None) in
  let fs := mkFS {[ ["r"] := Dir 0x1ff ]} [] 0x12 in
  ∃ fs', extractTarWithReader c (bytes_NewReader []) "/r" fs = Ok fs' ∧
    lookupNode fs' ["r"; "assets"] = Some (Dir 0x1ed) ∧
    lookupNode fs' ["r"; "bin"] = Some (Dir 0x1ed) ∧
    (lookupNode fs ["r"; "assets"] = Some (Dir 0x1ed) ∨
     lookupNode fs ["r"; "assets"] = None ∧ 0x1ed = masked fs 0x1ed).
Proof.
  intros d e c fs.
  destruct (extractTarWithReader c (bytes_NewReader []) "/r" fs) as [fs'|msg] eqn:E;
    [|vm_compute in E; discriminate].
  exists fs'. split; [done|].
  assert (lookupNode fs' ["r"; "assets"] = Some (Dir 0x1ed)) as Ha
    by (vm_compute in E; injection E as <-; reflexivity).
  split; [done|]. split; [vm_compute in E; injection E as <-; reflexivity|].
  exact (extractTar_directory_modes c (bytes_NewReader []) "/r" fs fs' _ _ E Ha).
Defined.

(** X19: extraction never removes a node and touches only what the
    regular-file entries name: a node that was there before and is not the
    target of a regular-file entry is there afterwards, unchanged. *)
Theorem extractTar_leaves_other_nodes c r targetDir fs fs' k n :
  extractTarWithReader c r targetDir fs = Ok fs' →
  lookupNode fs k = Some n →
  (∀ e, e ∈ entries (tar_NewReader c r) → Typeflag (header e) = TypeReg →
        targetKey fs targetDir e ≠ k) →
  lookupNode fs' k = Some n.
Proof.
  unfold extractTarWithReader. cbv zeta. intros H Hk Hother.
  by eapply extractEntries_keeps.
Qed.

Lemma extractTar_leaves_other_nodes_witness :
  let e := mkEntry (mkHeader "bin/entrypoint" 0x1ed TypeReg) [x7f; x45; x4c; x46] None in
  let c := mkCodecs (λ _, inl "gzip: invalid header") (λ _, mkStream [e] None) in
  let fs := mkFS {[ ["r"] := Dir 0x1ed; ["r"; "notes.txt"] := File 0x180 [x68; x69] ]}
              [] 0x12 in
  match extractTarWithReader c (bytes_NewReader []) "/r" fs with
  | Ok fs' => lookupNode fs' ["r"; "notes.txt"] = Some (File 0x180 [x68; x69])
  | Error _ => False
  end.
Proof.
  intros e c fs.
  destruct (extractTarWithReader c (bytes_NewReader []) "/r" fs) as [fs'|msg] eqn:E;
    [|vm_compute in E; discriminate].
  apply (extractTar_leaves_other_nodes c (bytes_NewReader []) "/r" fs fs' _ _ E);
    [reflexivity|].
  intros e' He' _. apply list_elem_of_In in He'. destruct He' as [<-|[]].
  vm_compute. discriminate.
Defined.

(** ** Paths *)

Lemma splitSlash_splitOn s : splitSlash s = splitOn slash s.
Proof. induction s as [|c s IH]; cbn [splitSlash splitOn]; [done|]. by rewrite IH. Qed.

Lemma splitOn_fields sep s : Forall (λ f, hasChar sep f = false) (splitOn sep s).
Proof.
  induction s as [|c s IH]; cbn [splitOn]; [by repeat constructor|].
  destruct (Ascii.eqb c sep) eqn:E; [by constructor|].
  destruct (splitOn sep s) as [|f fs].
  - constructor; [|done]. cbn [hasChar]. by rewrite E.
  - inversion IH as [|? ? Hf Hfs]; subst. constructor; [|done].
    cbn [hasChar]. by rewrite E, Hf.
Qed.

Lemma joinSlash_cons e e' rest :
  joinSlash (e :: e' :: rest) = e +:+ String slash (joinSlash (e' :: rest)).
Proof. done. Qed.

Lemma splitSlash_joinSlash elems :
  elems ≠ [] → Forall (λ f, hasChar slash f = false) elems →
  splitSlash (joinSlash elems) = elems.
Proof.
  induction elems as [|e rest IH]; [done|]. intros _ Hall.
  inversion Hall as [|? ? He Hrest]; subst.
  destruct rest as [|e' rest].
  - cbn [joinSlash]. rewrite splitSlash_splitOn. by apply splitOn_no_sep.
  - rewrite joinSlash_cons, splitSlash_splitOn, splitOn_append, <- !splitSlash_splitOn.
    rewrite IH by done. rewrite splitSlash_splitOn, splitOn_no_sep by done. done.
Qed.

Lemma isRooted_cons c s : isRooted (String c s) = Ascii.eqb c slash.
Proof.
  unfold isRooted. cbn [String.prefix].
  destruct (ascii_dec "/" c) as [<-|Hne]; [by destruct s|].
  symmetry. apply Ascii.eqb_neq. intros ->. by apply Hne.
Qed.

Lemma isRooted_append a b : a ≠ "" → isRooted (a +:+ b) = isRooted a.
Proof.
  destruct a as [|c a]; [done|]. intros _.
  change (String c a +:+ b) with (String c (a +:+ b)). by rewrite !isRooted_cons.
Qed.

Lemma isRooted_no_slash e : hasChar slash e = false → isRooted e = false.
Proof.
  destruct e as [|c e]; [done|]. rewrite isRooted_cons. cbn [hasChar].
  by intros [-> _]%orb_false_iff.
Qed.

(** *** The element stack of [filepath.Clean] *)

Lemma clean_step_plain rooted stack e : plainElem e → clean_step rooted stack e = stack ++ [e].
Proof.
  intros (H1 & H2 & H3 & _). unfold clean_step.
  by rewrite !decide_False by done.
Qed.

Lemma clean_plain_elems rooted stack elems :
  Forall plainElem elems → fold_left (clean_step rooted) elems stack = stack ++ elems.
Proof.
  revert stack. induction elems as [|e rest IH]; intros stack Hall; cbn [fold_left].
  - by rewrite app_nil_r.
  - inversion Hall as [|? ? He Hrest]; subst.
    rewrite clean_step_plain, IH by done. by rewrite <- app_assoc.
Qed.

Lemma clean_step_stack rooted stack e :
  hasChar slash e = false → Forall stackElem stack → Forall stackElem (clean_step rooted stack e).
Proof.
  intros He Hs. unfold clean_step.
  case_decide; [done|]. case_decide; [done|]. case_decide as Hdd.
  - destruct (last stack) as [top|] eqn:El.
    + case_decide.
      * apply Forall_app. split; [done|]. by repeat constructor.
      * apply last_Some in El as [s' ->]. rewrite removelast_last.
        by apply Forall_app in Hs as [? _].
    + destruct rooted; [done|]. by repeat constructor.
  - apply Forall_app. split; [done|]. by repeat constructor.
Qed.

Lemma clean_fold_stack rooted elems stack :
  Forall (λ f, hasChar slash f = false) elems → Forall stackElem stack →
  Forall stackElem (fold_left (clean_step rooted) elems stack).
Proof.
  revert stack. induction elems as [|e rest IH]; intros stack He Hs; [done|].
  inversion He; subst. cbn [fold_left]. apply IH; [done|]. by apply clean_step_stack.
Qed.

(** A rooted stack holds no dot-dot either. *)
Lemma clean_step_rooted stack e :
  hasChar slash e = false → Forall plainElem stack → Forall plainElem (clean_step true stack e).
Proof.
  intros He Hs. unfold clean_step.
  case_decide; [done|]. case_decide; [done|]. case_decide as Hdd.
  - destruct (last stack) as [top|] eqn:El; [|done].
    apply last_Some in El as [s' ->].
    apply Forall_app in Hs as [Hs' Htop]. inversion Htop as [|? ? (_ & _ & Hnd & _) _]; subst.
    rewrite decide_False by done. by rewrite removelast_last.
  - apply Forall_app. split; [done|]. by repeat constructor.
Qed.

Lemma clean_fold_rooted elems stack :
  Forall (λ f, hasChar slash f = false) elems → Forall plainElem stack →
  Forall plainElem (fold_left (clean_step true) elems stack).
Proof.
  revert stack. induction elems as [|e rest IH]; intros stack He Hs; [done|].
  inversion He; subst. cbn [fold_left]. apply IH; [done|]. by apply clean_step_rooted.
Qed.

(** Resolving a cleaned relative path from a base is resolving the path
    itself from that base. *)
Lemma clean_step_replay base stack e :
  Forall stackElem stack →
  fold_left (clean_step true) (clean_step false stack e) base =
    clean_step true (fold_left (clean_step true) stack base) e.
Proof.
  intros Hs. unfold clean_step at 2.
  case_decide as H1; [subst; unfold clean_step; by rewrite decide_True|].
  case_decide as H2;
    [subst; unfold clean_step at 2; rewrite decide_False, decide_True by done; done|].
  case_decide as H3.
  - subst e. destruct (last stack) as [top|] eqn:El.
    + apply last_Some in El as [s' ->].
      apply Forall_app in Hs as [Hs' Htop].
      inversion Htop as [|? ? (Ht1 & Ht2 & _) _]; subst.
      case_decide as Hdd.
      * by rewrite fold_left_app.
      * rewrite removelast_last, fold_left_app. cbn [fold_left].
        assert (clean_step true (fold_left (clean_step true) s' base) top
                = fold_left (clean_step true) s' base ++ [top]) as ->.
        { unfold clean_step. by rewrite !decide_False by done. }
        unfold clean_step. rewrite !decide_False by done. rewrite decide_True by done.
        rewrite last_snoc, decide_False by done. by rewrite removelast_last.
    + apply last_None in El as ->. done.
  - by rewrite fold_left_app.
Qed.

Lemma clean_fold_replay base elems stack :
  Forall (λ f, hasChar slash f = false) elems → Forall stackElem stack →
  fold_left (clean_step true) (fold_left (clean_step false) elems stack) base =
    fold_left (clean_step true) elems (fold_left (clean_step true) stack base).
Proof.
  revert stack. induction elems as [|e rest IH]; intros stack He Hs; [done|].
  inversion He; subst. cbn [fold_left].
  rewrite IH by (try done; by apply clean_step_stack).
  by rewrite clean_step_replay.
Qed.
(** *** How the kernel sees cleaned and joined paths *)

Lemma plainElem_stackElem e : plainElem e → stackElem e.
Proof. by intros (? & ? & _ & ?). Qed.

Lemma plainElem_no_slash elems :
  Forall plainElem elems → Forall (λ f, hasChar slash f = false) elems.
Proof. intros H. eapply Forall_impl; [exact H|]. by intros e (_ & _ & _ & ?). Qed.

Lemma stackElem_no_slash elems :
  Forall stackElem elems → Forall (λ f, hasChar slash f = false) elems.
Proof. intros H. eapply Forall_impl; [exact H|]. by intros e (_ & _ & ?). Qed.

Lemma splitSlash_fields s : Forall (λ f, hasChar slash f = false) (splitSlash s).
Proof. rewrite splitSlash_splitOn. apply splitOn_fields. Qed.

Lemma splitSlash_append a b : splitSlash (a +:+ String slash b) = splitSlash a ++ splitSlash b.
Proof.
  by rewrite !splitSlash_splitOn, splitOn_append.
Qed.

(** [filepath.Clean] does not change what a path resolves to. *)
Lemma resolve_Clean fs p : resolve fs (filepath_Clean p) = resolve fs p.
Proof.
  unfold filepath_Clean. case_decide as Hp; [by subst|].
  destruct (isRooted p) eqn:R; cbv zeta.
  - pose proof (clean_fold_rooted (splitSlash p) [] (splitSlash_fields p) (Forall_nil_2 _))
      as Hplain.
    unfold resolve. rewrite R. fold (clean_elems true [] p) in Hplain.
    set (elems := clean_elems true [] p) in *.
    change ("/" +:+ joinSlash elems) with (String slash (joinSlash elems)).
    rewrite isRooted_cons. change (Ascii.eqb slash slash) with true. cbv iota.
    unfold clean_elems at 1.
    change (String slash (joinSlash elems)) with ("" +:+ String slash (joinSlash elems)).
    rewrite splitSlash_append. cbn [splitSlash app fold_left].
    change (clean_step true [] "") with (@nil string).
    destruct (decide (elems = [])) as [->|Hne]; [done|].
    rewrite splitSlash_joinSlash by (try done; by apply plainElem_no_slash).
    by rewrite clean_plain_elems.
  - pose proof (clean_fold_stack false (splitSlash p) [] (splitSlash_fields p) (Forall_nil_2 _))
      as Hstack.
    pose proof (clean_fold_replay (cwd fs) (splitSlash p) [] (splitSlash_fields p)
                  (Forall_nil_2 _)) as Hreplay.
    cbn [fold_left] in Hreplay.
    fold (clean_elems false [] p) in Hstack, Hreplay.
    set (elems := clean_elems false [] p) in *.
    assert (resolve fs p = fold_left (clean_step true) elems (cwd fs)) as ->.
    { unfold resolve. rewrite R. by rewrite Hreplay. }
    case_decide as He; [by rewrite He|].
    destruct elems as [|e rest] eqn:Ee; [done|]. rewrite <- Ee in *.
    assert (isRooted (joinSlash elems) = false) as Hr.
    { rewrite Ee in Hstack |- *. inversion Hstack as [|? ? (He1 & _ & He3) _]; subst.
      destruct rest as [|e' rest].
      - by apply isRooted_no_slash.
      - rewrite joinSlash_cons, isRooted_append by done. by apply isRooted_no_slash. }
    unfold resolve. rewrite Hr. unfold clean_elems.
    rewrite splitSlash_joinSlash; [done|done|]. by apply stackElem_no_slash.
Qed.

Lemma resolve_rooted fs b :
  resolve fs (String slash b) = fold_left (clean_step true) (splitSlash b) [].
Proof.
  unfold resolve, clean_elems. rewrite isRooted_cons, Ascii.eqb_refl.
  change (String slash b) with ("" +:+ String slash b). by rewrite splitSlash_append.
Qed.

(** A path continued behind a slash resolves from where the path leads. *)
Lemma resolve_slash fs a b :
  a ≠ "" →
  resolve fs (a +:+ String slash b) = fold_left (clean_step true) (splitSlash b) (resolve fs a).
Proof.
  intros Ha. unfold resolve, clean_elems.
  by rewrite isRooted_append, splitSlash_append, fold_left_app.
Qed.

Lemma targetKey_eq fs targetDir e :
  targetDir ≠ "" →
  targetKey fs targetDir e =
    fold_left (clean_step true) (splitSlash (Name (header e))) (resolve fs targetDir).
Proof.
  intros Hd. unfold targetKey. cbn [filepath_Join]. rewrite decide_False by done.
  rewrite resolve_Clean, joinSlash_cons. cbn [joinSlash]. by apply resolve_slash.
Qed.

(** Without a dot-dot element the stack only grows. *)
Lemma clean_no_dotdot rooted elems stack :
  ".." ∉ elems →
  fold_left (clean_step rooted) elems stack = stack ++ filter (λ x, x ≠ "" ∧ x ≠ ".") elems.
Proof.
  revert stack. induction elems as [|e rest IH]; intros stack Hno; cbn [fold_left].
  - by rewrite filter_nil, app_nil_r.
  - apply not_elem_of_cons in Hno as [Hne Hrest]. rewrite IH by done.
    unfold clean_step. case_decide as H1; [|case_decide as H2].
    + rewrite filter_cons_False; [done|]. by intros [? _].
    + rewrite filter_cons_False; [done|]. by intros [_ ?].
    + rewrite decide_False by done. rewrite filter_cons_True by done.
      by rewrite <- app_assoc.
Qed.

Lemma nameElems_plain name : ".." ∉ splitSlash name → Forall plainElem (nameElems name).
Proof.
  intros Hno. unfold nameElems. apply Forall_forall. intros x Hx.
  apply list_elem_of_filter in Hx as [[H1 H2] Hin].
  pose proof (splitSlash_fields name) as Hf. rewrite Forall_forall in Hf.
  repeat split; [done|done| |by apply Hf]. by intros ->.
Qed.

(** *** The directory of a path *)

Lemma hasSlash_hasChar s : hasSlash s = hasChar slash s.
Proof. induction s as [|c s IH]; [done|]. cbn [hasSlash hasChar]. by rewrite IH. Qed.

Lemma upToLastSlash_no_slash l : hasChar slash l = false → upToLastSlash l = "".
Proof.
  destruct l as [|c l]; [done|]. cbn [hasChar upToLastSlash]. rewrite hasSlash_hasChar.
  by intros ->.
Qed.

Lemma upToLastSlash_append a l :
  hasChar slash l = false → upToLastSlash (a +:+ String slash l) = a +:+ String slash "".
Proof.
  intros Hl. induction a as [|c a IH].
  - change ("" +:+ String slash l) with (String slash l). cbn [upToLastSlash].
    change (Ascii.eqb slash slash) with true. cbn [orb].
    by rewrite upToLastSlash_no_slash.
  - change (String c a +:+ String slash l) with (String c (a +:+ String slash l)).
    cbn [upToLastSlash]. rewrite hasSlash_hasChar.
    assert (hasChar slash (a +:+ String slash l) = true) as ->.
    { rewrite hasChar_append. cbn [hasChar]. rewrite Ascii.eqb_refl. by rewrite orb_true_r. }
    by rewrite orb_true_r, IH.
Qed.

Lemma joinSlash_snoc elems l :
  elems ≠ [] → joinSlash (elems ++ [l]) = joinSlash elems +:+ String slash l.
Proof.
  induction elems as [|e rest IH]; [done|]. intros _.
  destruct rest as [|e' rest]; [done|].
  change ((e :: e' :: rest) ++ [l]) with (e :: ((e' :: rest) ++ [l])).
  change ((e' :: rest) ++ [l]) with (e' :: (rest ++ [l])) at 1.
  rewrite joinSlash_cons. change (e' :: rest ++ [l]) with ((e' :: rest) ++ [l]).
  rewrite IH by done. rewrite joinSlash_cons.
  by rewrite string_append_assoc.
Qed.

(** A cleaned path whose last element is an ordinary name ends in that
    name, alone or behind a slash. *)
Lemma Clean_last_plain q elems l :
  q ≠ "" → clean_elems (isRooted q) [] q = elems ++ [l] →
  filepath_Clean q = l ∨ ∃ a, filepath_Clean q = a +:+ String slash l.
Proof.
  intros Hq He. unfold filepath_Clean. rewrite decide_False by done. cbv zeta.
  rewrite He. destruct (isRooted q).
  - right. destruct elems as [|e rest].
    + by exists "".
    + rewrite joinSlash_snoc by done. by exists ("/" +:+ joinSlash (e :: rest)).
  - rewrite decide_False by (by destruct elems).
    destruct elems as [|e rest]; [by left|].
    right. rewrite joinSlash_snoc by done. by eexists.
Qed.

(** The directory of such a path resolves to the parent of what the path
    resolves to. *)
Lemma resolve_Dir fs p l :
  p = l ∨ (∃ a, p = a +:+ String slash l) → plainElem l →
  resolve fs (filepath_Dir p) = removelast (resolve fs p).
Proof.
  intros Hp Hl. pose proof Hl as (Hl1 & Hl2 & Hl3 & Hl4).
  unfold filepath_Dir. rewrite resolve_Clean.
  destruct Hp as [->|[a ->]].
  - rewrite upToLastSlash_no_slash by done.
    unfold resolve at 2. rewrite isRooted_no_slash by done.
    unfold clean_elems. rewrite splitSlash_splitOn, splitOn_no_sep by done.
    cbn [fold_left]. rewrite clean_step_plain by done. by rewrite removelast_last.
  - rewrite upToLastSlash_append by done.
    destruct (decide (a = "")) as [->|Ha].
    + change ("" +:+ String slash l) with (String slash l).
      change ("" +:+ String slash "") with (String slash "").
      rewrite !resolve_rooted, (splitSlash_splitOn l), splitOn_no_sep by done.
      cbn [splitSlash fold_left]. change (clean_step true [] "") with (@nil string).
      by rewrite clean_step_plain.
    + rewrite !resolve_slash by done.
      rewrite (splitSlash_splitOn l), splitOn_no_sep by done. cbn [splitSlash fold_left].
      rewrite (clean_step_plain _ _ l) by done. by rewrite removelast_last.
Qed.
(** ** Where a tar entry lands *)

Lemma allDirs_prefixes fs rest pre k :
  allDirs fs pre rest → k ≠ pre → pre `prefix_of` k → k `prefix_of` pre ++ rest →
  ∃ m, lookupNode fs k = Some (Dir m).
Proof.
  revert pre. induction rest as [|elem rest IH]; intros pre Hall Hne [s ->] Hk.
  - rewrite app_nil_r in Hk. destruct Hk as [t Ht].
    rewrite <- app_assoc in Ht. rewrite <- (app_nil_r pre) in Ht at 1.
    apply app_inv_head in Ht. symmetry in Ht. apply app_eq_nil in Ht as [-> _].
    by rewrite app_nil_r in Hne.
  - destruct Hall as [Hdir Hall].
    apply prefix_app_inv in Hk.
    destruct s as [|x s]; [by rewrite app_nil_r in Hne|].
    apply prefix_cons_inv_1 in Hk as Hx. apply prefix_cons_inv_2 in Hk.
    subst x. destruct s as [|y s]; [done|].
    apply (IH (pre ++ [elem])); [done| | |].
    + intros Heq. by apply app_inv_head in Heq.
    + exists (y :: s). by rewrite <- app_assoc.
    + rewrite <- !app_assoc. by apply prefix_app, prefix_cons.
Qed.

Lemma prefix_snoc_proper {A} (k l : list A) x :
  k `prefix_of` l ++ [x] → k ≠ l ++ [x] → k `prefix_of` l.
Proof.
  intros [s Hs] Hne. destruct s as [|y s _] using rev_ind.
  - by rewrite app_nil_r in Hs.
  - rewrite app_assoc in Hs. apply app_inj_tail in Hs as [-> _]. by exists s.
Qed.

(** A regular-file entry of an archive whose extraction succeeded is a file
    where its joined path resolves to, below the directories that [MkdirAll]
    made sure of. *)
Lemma extractTar_entry_nodes c r targetDir fs fs' es1 e es2 :
  extractTarWithReader c r targetDir fs = Ok fs' →
  entries (tar_NewReader c r) = es1 ++ e :: es2 →
  Typeflag (header e) = TypeReg →
  isFileNode (lookupNode fs' (targetKey fs targetDir e)) ∧
  allDirs fs' []
    (resolve fs (filepath_Dir (filepath_Join [targetDir; Name (header e)]))).
Proof.
  unfold extractTarWithReader. cbv zeta. intros H Hes Hreg. rewrite Hes in H.
  apply extractEntries_app_Ok in H as (fs1 & Hc1 & H).
  rewrite extractEntries_cons in H. apply bind_Ok in H as (fs2 & Hstep & Hrest).
  apply entryStep_Ok in Hstep. cbv zeta in Hstep.
  destruct Hstep as (_ & _ & _ & _ & _ & Hr).
  destruct (Hr Hreg) as (_ & _ & Hall & _ & Hfile).
  apply extractEntries_Ok_kinds in Hrest as (_ & _ & _ & Hdirs & Hfiles).
  rewrite (resolve_cwd fs1 fs) in Hall, Hfile by done.
  split.
  - apply Hfiles. unfold targetKey. rewrite Hfile. by eexists _, _.
  - eapply allDirs_mono; [|exact Hall]. intros k m Hk. exists m. by apply Hdirs.
Qed.

(** X20: an entry name without a dot-dot element cannot leave the target
    directory.  When the extraction of a tar stream succeeds, a regular-file
    entry whose slash-separated name has no [..] element and names
    something is a file at the target directory's path followed by the
    name's elements (empty elements and [.] dropped), and every proper
    ancestor of that path is a directory. *)
Theorem extractTar_entry_stays_inside c r targetDir fs fs' es1 e es2 :
  extractTarWithReader c r targetDir fs = Ok fs' →
  entries (tar_NewReader c r) = es1 ++ e :: es2 →
  Typeflag (header e) = TypeReg →
  targetDir ≠ "" →
  ".." ∉ splitSlash (Name (header e)) →
  nameElems (Name (header e)) ≠ [] →
  let key := resolve fs targetDir ++ nameElems (Name (header e)) in
  targetKey fs targetDir e = key ∧
  isFileNode (lookupNode fs' key) ∧
  ∀ k, k `prefix_of` key → k ≠ key → ∃ m, lookupNode fs' k = Some (Dir m).
Proof.
  intros H Hes Hreg Hd Hno Hne key.
  destruct (extractTar_entry_nodes _ _ _ _ _ _ _ _ H Hes Hreg) as [Hfile Hall].
  assert (targetKey fs targetDir e = key) as Hkey.
  { rewrite targetKey_eq by done. by rewrite clean_no_dotdot. }
  rewrite Hkey in Hfile. split; [done|]. split; [done|].
  intros k Hpre Hk.
  destruct (nameElems (Name (header e))) as [|l names _] eqn:En using rev_ind; [done|].
  pose proof (nameElems_plain _ Hno) as Hplain. rewrite En in Hplain.
  apply Forall_app in Hplain as [_ Hl]. inversion Hl as [|? ? Hl' _]; subst.
  set (q := targetDir +:+ String slash (Name (header e))).
  assert (filepath_Join [targetDir; Name (header e)] = filepath_Clean q) as Hjoin.
  { cbn [filepath_Join]. by rewrite decide_False. }
  assert (q ≠ "") as Hq by (by destruct targetDir).
  assert (clean_elems (isRooted q) [] q =
            (clean_elems (isRooted q) [] targetDir ++ names) ++ [l]) as Helems.
  { unfold clean_elems, q. rewrite splitSlash_append, fold_left_app.
    rewrite clean_no_dotdot by done. fold (nameElems (Name (header e))).
    by rewrite En, app_assoc. }
  rewrite Hjoin, (resolve_Dir fs _ l) in Hall
    by (try done; by eapply Clean_last_plain).
  rewrite <- Hjoin in Hall. fold (targetKey fs targetDir e) in Hall. rewrite Hkey in Hall.
  unfold key in Hall, Hpre, Hk. rewrite app_assoc in Hall, Hpre, Hk.
  rewrite removelast_last in Hall.
  apply prefix_snoc_proper in Hpre; [|done].
  destruct (decide (k = [])) as [->|Hk0]; [by eexists|].
  by apply (allDirs_prefixes fs' (resolve fs targetDir ++ names) [] k);
    [|done|apply prefix_nil|].
Qed.

(** An executable below [bin/], named with a redundant dot, is pulled into
    [/r]. *)
Lemma extractTar_entry_stays_inside_witness :
  let e := mkEntry (mkHeader "bin/./entrypoint" 0x1ed TypeReg) [x7f; x45; x4c; x46] None in
  let c := mkCodecs (λ _, inl "gzip: invalid header") (λ _, mkStream [e] None) in
  let fs := mkFS {[ ["r"] := Dir 0x1ed ]} [] 0x12 in
  ∃ fs', extractTarWithReader c (bytes_NewReader []) "/r" fs = Ok fs' ∧
    isFileNode (lookupNode fs' ["r"; "bin"; "entrypoint"]) ∧
    ∃ m, lookupNode fs' ["r"; "bin"] = Some (Dir m).
Proof.
  intros e c fs.
  destruct (extractTarWithReader c (bytes_NewReader []) "/r" fs) as [fs'|msg] eqn:E;
    [|vm_compute in E; discriminate].
  exists fs'. split; [reflexivity|].
  destruct (extractTar_entry_stays_inside c (bytes_NewReader []) "/r" fs fs' [] e []
              E eq_refl eq_refl) as (_ & Hfile & Hdirs).
  - discriminate.
  - intros Hin. apply list_elem_of_In in Hin. vm_compute in Hin.
    destruct Hin as [Hin|[Hin|[Hin|[]]]]; discriminate.
  - vm_compute. discriminate.
  - split; [exact Hfile|]. apply Hdirs; [|discriminate].
    by exists ["entrypoint"].
Defined.

(** X21: the extractor does not confine entries to the target directory.
    When the target directory resolves to [parent/d] and the extraction of a
    tar stream succeeds, a regular-file entry named [../rest] (with no
    further [..] element) is a file at [parent] followed by the elements of
    [rest]; unless these start with [d] again, that path is not below the
    target directory. *)
Theorem extractTar_dotdot_entry_escapes c r targetDir fs fs' es1 e es2 parent d rest :
  extractTarWithReader c r targetDir fs = Ok fs' →
  entries (tar_NewReader c r) = es1 ++ e :: es2 →
  Typeflag (header e) = TypeReg →
  targetDir ≠ "" →
  resolve fs targetDir = parent ++ [d] → d ≠ ".." →
  Name (header e) = "../" +:+ rest →
  ".." ∉ splitSlash rest →
  let key := parent ++ nameElems rest in
  targetKey fs targetDir e = key ∧
  isFileNode (lookupNode fs' key) ∧
  (head (nameElems rest) ≠ Some d → ¬ resolve fs targetDir `prefix_of` key).
Proof.
  intros H Hes Hreg Hd Hres Hdd Hname Hno key.
  destruct (extractTar_entry_nodes _ _ _ _ _ _ _ _ H Hes Hreg) as [Hfile _].
  assert (targetKey fs targetDir e = key) as Hkey.
  { rewrite targetKey_eq, Hname, Hres by done.
    change ("../" +:+ rest) with (".." +:+ String slash rest).
    rewrite splitSlash_append.
    change (splitSlash "..") with [".."]. cbn [app fold_left].
    assert (clean_step true (parent ++ [d]) ".." = parent) as ->.
    { unfold clean_step. rewrite !decide_False by done. rewrite decide_True by done.
      rewrite last_snoc, decide_False by done. by rewrite removelast_last. }
    by rewrite clean_no_dotdot. }
  rewrite Hkey in Hfile. split; [done|]. split; [done|].
  intros Hhead Hpre. unfold key in Hpre. rewrite Hres in Hpre.
  apply prefix_app_inv in Hpre.
  destruct (nameElems rest) as [|x names].
  - by apply prefix_nil_not in Hpre.
  - apply prefix_cons_inv_1 in Hpre. by subst.
Qed.

(** An archive pulled into [/r] leaves a file beside [/r]. *)
Lemma extractTar_dotdot_entry_escapes_witness :
  let e := mkEntry (mkHeader "../x" 0x1ed TypeReg) [x23; x21] None in
  let c := mkCodecs (λ _, inl "gzip: invalid header") (λ _, mkStream [e] None) in
  let fs := mkFS {[ ["r"] := Dir 0x1ed ]} [] 0x12 in
  ∃ fs', extractTarWithReader c (bytes_NewReader []) "/r" fs = Ok fs' ∧
    isFileNode (lookupNode fs' ["x"]) ∧ ¬ ["r"] `prefix_of` ["x"].
Proof.
  intros e c fs.
  destruct (extractTarWithReader c (bytes_NewReader []) "/r" fs) as [fs'|msg] eqn:E;
    [|vm_compute in E; discriminate].
  exists fs'. split; [reflexivity|].
  destruct (extractTar_dotdot_entry_escapes c (bytes_NewReader []) "/r" fs fs' [] e []
              [] "r" "x" E eq_refl eq_refl) as (_ & Hfile & Hout).
  - discriminate.
  - reflexivity.
  - discriminate.
  - reflexivity.
  - intros Hin. apply list_elem_of_In in Hin. vm_compute in Hin.
    destruct Hin as [Hin|[]]; discriminate.
  - split; [exact Hfile|]. apply Hout. vm_compute. discriminate.
Defined.
